(** * LibUTF: a shallow embedding of the UTF toolkit

    The development follows [include/utf_toolkit.h], [src/utf_toolkit.cpp]
    and [src/unicode_utilities.cpp].  Machine integers are integers of [Z]
    with the wrap-around of the C++ types written out: [uint8_t], [uint32_t]
    and the signed [unicode_t] (an [int32_t]).  A buffer is a list of bytes,
    a null buffer pointer is [None]. *)

From Stdlib Require Import ZArith List Bool Lia.
Import ListNotations.
Local Open Scope Z_scope.

(** ** Machine integers *)

Module Int.

(** [static_cast<uint32_t>] *)
Definition u32 (z : Z) : Z := z mod 4294967296.

(** conversion to [int32_t] (two's complement) *)
Definition i32 (z : Z) : Z := (z + 2147483648) mod 4294967296 - 2147483648.

(** [static_cast<uint8_t>] *)
Definition u8 (z : Z) : Z := z mod 256.

(** [static_cast<uint16_t>] *)
Definition u16 (z : Z) : Z := z mod 65536.

(** The range of [unicode_t]. *)
Definition is_i32 (z : Z) : Prop := -2147483648 <= z < 2147483648.

(** The range of [uint32_t]. *)
Definition is_u32 (z : Z) : Prop := 0 <= z < 4294967296.

(** The range of [uint8_t]. *)
Definition is_u8 (z : Z) : Prop := 0 <= z < 256.

End Int.
Import Int.

(** ** The diagnostic bitset [cp_errors] *)

Module cp_errors.

(** [enum class bits] *)
Definition None_ : Z := 0.
Definition Failed : Z := Z.shiftl 1 31.
Definition InvalidBuffer : Z := Z.shiftl 1 30.
Definition InvalidOffset : Z := Z.shiftl 1 29.
Definition MisalignedOffset : Z := Z.shiftl 1 28.
Definition MisalignedLength : Z := Z.shiftl 1 27.
Definition WriteOverflow : Z := Z.shiftl 1 26.
Definition ReadTruncated : Z := Z.shiftl 1 25.
Definition ReadExhausted : Z := Z.shiftl 1 24.
Definition NotEncodable : Z := Z.shiftl 1 23.
Definition NotDecodable : Z := Z.shiftl 1 22.
Definition InvalidPoint : Z := Z.shiftl 1 21.
Definition ExtendedUCS4 : Z := Z.shiftl 1 20.
Definition Supplementary : Z := Z.shiftl 1 19.
Definition NonCharacter : Z := Z.shiftl 1 18.
Definition TruncatedPair : Z := Z.shiftl 1 17.
Definition SurrogatePair : Z := Z.shiftl 1 16.
Definition HighSurrogate : Z := Z.shiftl 1 15.
Definition LowSurrogate : Z := Z.shiftl 1 14.
Definition DelimitString : Z := Z.shiftl 1 13.
Definition IrregularForm : Z := Z.shiftl 1 12.
Definition BadSizeUTF8 : Z := Z.shiftl 1 11.
Definition ModifiedUTF8 : Z := Z.shiftl 1 10.
Definition OverlongUTF8 : Z := Z.shiftl 1 9.
Definition ExtendedUTF8 : Z := Z.shiftl 1 8.
Definition Untransformable : Z := Z.shiftl 1 7.
Definition NotEnoughBits : Z := Z.shiftl 1 6.
Definition DisallowedByte : Z := Z.shiftl 1 5.
Definition UnexpectedByte : Z := Z.shiftl 1 4.
Definition ReservedBit3 : Z := Z.shiftl 1 3.
Definition ReservedBit2 : Z := Z.shiftl 1 2.
Definition ReservedBit1 : Z := Z.shiftl 1 1.
Definition ReservedBit0 : Z := Z.shiftl 1 0.

(** The class holds one [uint32_t state]. *)
Definition t : Type := Z.

(** [a | b], [a ^ b] on diagnostics *)
Definition or (a b : t) : t := Z.lor a b.
Definition xor (a b : t) : t := Z.lxor a b.

(** [~x] on [underlying_type] *)
Definition not32 (x : Z) : Z := u32 (Z.lnot x).

Definition ErrorsMask : Z :=
  Eval cbv in
    fold_right Z.lor 0
      [Failed; InvalidBuffer; InvalidOffset; MisalignedOffset;
       MisalignedLength; WriteOverflow; ReadTruncated; NotEncodable;
       NotDecodable; BadSizeUTF8; Untransformable; NotEnoughBits;
       DisallowedByte; UnexpectedByte].

Definition WarningsMask : Z :=
  Eval cbv in
    fold_right Z.lor 0
      [ReadExhausted; InvalidPoint; ExtendedUCS4; Supplementary;
       NonCharacter; TruncatedPair; SurrogatePair; HighSurrogate;
       LowSurrogate; DelimitString; IrregularForm; ModifiedUTF8;
       OverlongUTF8; ExtendedUTF8].

(** [ReservedMask] as the header writes it: [ReservedBit1] twice, no
    [ReservedBit0]. *)
Definition ReservedMask : Z :=
  Z.lor (Z.lor (Z.lor ReservedBit3 ReservedBit2) ReservedBit1) ReservedBit1.

Definition NonReservedMask : Z := not32 ReservedMask.

Definition ByteIndexMask : Z :=
  Z.lor (Z.lor ReservedBit2 ReservedBit1) ReservedBit0.

Definition BufferErrorsMask : Z :=
  Z.lor (Z.lor (Z.lor InvalidBuffer InvalidOffset) MisalignedOffset)
        MisalignedLength.

Definition UseReplacementCharacterMask : Z :=
  Z.lor (Z.lor NotDecodable NonCharacter) IrregularForm.

(** [any()] *)
Definition any (state : t) : bool := negb (Z.land state NonReservedMask =? 0).

(** [any(mask)] *)
Definition any_of (state : t) (mask : Z) : bool :=
  negb (Z.land state mask =? 0).

(** [none(mask)] *)
Definition none_of (state : t) (mask : Z) : bool := negb (any_of state mask).

(** [clear(mask)] *)
Definition clear (state : t) (mask : Z) : t := Z.land state (not32 mask).

Definition failed (state : t) : bool := any_of state Failed.
Definition error (state : t) : bool := any_of state ErrorsMask.
Definition no_error (state : t) : bool := negb (error state).
Definition buffer_error (state : t) : bool := any_of state BufferErrorsMask.
Definition use_replacement_character (state : t) : bool :=
  any_of state UseReplacementCharacterMask.

Definition get_byte_index (state : t) : Z := Z.land state ByteIndexMask.

Definition set_byte_index (state : t) (index : Z) : t :=
  Z.lor (Z.land state (not32 ByteIndexMask)) (Z.land index ByteIndexMask).

End cp_errors.

(** ** The stream cursor [utf_text] *)

Record utf_text : Type := mk_text {
  length : Z;
  offset : Z;
  buffer : option (list Z)
}.

Definition set_offset (text : utf_text) (o : Z) : utf_text :=
  mk_text (length text) o (buffer text).

Definition set_buffer (text : utf_text) (b : list Z) : utf_text :=
  mk_text (length text) (offset text) (Some b).

(** [buffer[i]]: the byte at index [i] of the region. *)
Definition rd (b : list Z) (i : Z) : Z := nth (Z.to_nat i) b 0.

(** [buffer[i] = v] *)
Definition wr (b : list Z) (i : Z) (v : Z) : list Z :=
  if (0 <=? i) && (i <? Z.of_nat (List.length b))
  then firstn (Z.to_nat i) b ++ v :: skipn (S (Z.to_nat i)) b
  else b.

(** Successive stores [buffer[i] = v0; buffer[i+1] = v1; ...]. *)
Fixpoint store (b : list Z) (i : Z) (vs : list Z) : list Z :=
  match vs with
  | [] => b
  | v :: vs' => store (wr b i v) (i + 1) vs'
  end.

(** The bytes of the region, for a cursor whose pointer is not null. *)
Definition bytes_of (text : utf_text) : list Z :=
  match buffer text with
  | Some b => b
  | None => []
  end.

(** A cursor describes its region: the pointer is not null, [length] is the
    size of the region, every cell is a byte, and [0 <= offset <= length]. *)
Definition well_formed (text : utf_text) : Prop :=
  exists b, buffer text = Some b /\
            length text = Z.of_nat (List.length b) /\
            length text < 4294967296 /\
            Forall is_u8 b /\
            0 <= offset text <= length text.

(** [get_errors(text)] *)
Definition get_errors (text : utf_text) : cp_errors.t :=
  let errors := 0 in
  let errors :=
    match buffer text with
    | None => Z.lor errors (Z.lor cp_errors.Failed cp_errors.InvalidBuffer)
    | Some _ => errors
    end in
  if length text <? offset text
  then Z.lor errors (Z.lor cp_errors.Failed cp_errors.InvalidOffset)
  else errors.

(** [get_errors(text, alignment_mask)] *)
Definition get_errors_aligned (text : utf_text) (alignment_mask : Z)
  : cp_errors.t :=
  let errors := get_errors text in
  let errors :=
    if negb (Z.land (offset text) alignment_mask =? 0)
    then Z.lor errors (Z.lor cp_errors.Failed cp_errors.MisalignedOffset)
    else errors in
  if negb (Z.land (length text) alignment_mask =? 0)
  then Z.lor errors (Z.lor cp_errors.Failed cp_errors.MisalignedLength)
  else errors.

(** ** Code-point encoded length functions *)

(** [lenUTF8(unicode, use_cesu, use_java)] of the toolkit.  A comparison of
    the signed [unicode] with an unsigned literal is an unsigned one. *)
Definition lenUTF8 (unicode : Z) (use_cesu use_java : bool) : Z :=
  if u32 unicode <=? 0x7fffffff then
    if u32 unicode <=? 0x0000007f then
      (if use_java && (u32 unicode =? 0) then 2 else 1)
    else if u32 unicode <=? 0x000007ff then 2
    else if u32 unicode <=? 0x0000ffff then 3
    else if u32 unicode <=? 0x0010ffff then (if use_cesu then 6 else 4)
    else if u32 unicode <=? 0x001fffff then 4
    else if u32 unicode <=? 0x03ffffff then 5
    else 6
  else 0.

(** [lenUTF16(unicode, use_ucs2)] of the toolkit *)
Definition lenUTF16 (unicode : Z) (use_ucs2 : bool) : Z :=
  if u32 unicode <=? 0x0010ffff then
    if u32 unicode <=? 0x0000ffff then 2
    else if negb use_ucs2 then 4
    else 0
  else 0.

(** [lenUTF32(unicode, use_cesu, use_ucs4)] of the toolkit *)
Definition lenUTF32 (unicode : Z) (use_cesu use_ucs4 : bool) : Z :=
  if u32 unicode <=? (if use_ucs4 then 0x7fffffff else 0x0010ffff) then
    (if use_cesu && (0x00010000 <=? u32 unicode) && (u32 unicode <=? 0x0010ffff)
     then 8 else 4)
  else 0.

(** The [len] of the byte handlers:
    [(static_cast<unicode_t>(unicode & mask) == unicode) ? 1 : 0] *)
Definition lenMasked (unicode : Z) (mask : Z) : Z :=
  if i32 (Z.land (u32 unicode) mask) =? unicode then 1 else 0.

(** ** Unicode / Windows code-page 1252 *)

Inductive CP1252Strictness : Type := WindowsCompatible | StrictUndefined.

Definition isCP1252UndefinedC1 (unicode : Z) : bool :=
  (unicode =? 0x0081) || (unicode =? 0x008d) || (unicode =? 0x008f) ||
  (unicode =? 0x0090) || (unicode =? 0x009d).

Definition translate : list Z :=
  [0x20ac; 0x0081; 0x201a; 0x0192; 0x201e; 0x2026; 0x2020; 0x2021;
   0x02c6; 0x2030; 0x0160; 0x2039; 0x0152; 0x008d; 0x017d; 0x008f;
   0x0090; 0x2018; 0x2019; 0x201c; 0x201d; 0x2022; 0x2013; 0x2014;
   0x02dc; 0x2122; 0x0161; 0x203a; 0x0153; 0x009d; 0x017e; 0x0178].

(** [cp1252ToUnicode]: the result flag and the value left in [unicode]. *)
Definition cp1252ToUnicode (cp1252 : Z) (strictness : CP1252Strictness)
  : bool * Z :=
  let index := u8 (Z.lxor cp1252 0x80) in
  let unicode := if index <? 32 then rd translate index else cp1252 in
  match strictness with
  | StrictUndefined =>
      if isCP1252UndefinedC1 unicode then (false, 0) else (true, unicode)
  | WindowsCompatible => (true, unicode)
  end.

Definition is_WindowsCompatible (s : CP1252Strictness) : bool :=
  match s with WindowsCompatible => true | StrictUndefined => false end.

(** The [switch] of [unicodeToCP1252]. *)
Definition cp1252_inverse : list (Z * Z) :=
  [(0x0152, 0x8c); (0x0153, 0x9c); (0x0160, 0x8a); (0x0161, 0x9a);
   (0x0178, 0x9f); (0x017D, 0x8e); (0x017E, 0x9e); (0x0192, 0x83);
   (0x02C6, 0x88); (0x02DC, 0x98); (0x2013, 0x96); (0x2014, 0x97);
   (0x2018, 0x91); (0x2019, 0x92); (0x201A, 0x82); (0x201C, 0x93);
   (0x201D, 0x94); (0x201E, 0x84); (0x2020, 0x86); (0x2021, 0x87);
   (0x2022, 0x95); (0x2026, 0x85); (0x2030, 0x89); (0x2039, 0x8b);
   (0x203A, 0x9b); (0x20AC, 0x80); (0x2122, 0x99)].

Fixpoint switch_case (cases : list (Z * Z)) (unicode : Z) : option Z :=
  match cases with
  | [] => None
  | (k, v) :: rest => if unicode =? k then Some v else switch_case rest unicode
  end.

(** [unicodeToCP1252]: the result flag and the byte left in [cp1252]. *)
Definition unicodeToCP1252 (unicode : Z) (strictness : CP1252Strictness)
  : bool * Z :=
  if u32 unicode <=? 0x00ff then
    if (u32 unicode <=? 0x007f) || (0x00a0 <=? u32 unicode) ||
       (is_WindowsCompatible strictness && isCP1252UndefinedC1 unicode)
    then (true, u8 unicode)
    else (false, 0)
  else
    match switch_case cp1252_inverse unicode with
    | Some v => (true, v)
    | None => (false, 0)
    end.

(** ** Low level code-point encoding functions

    An encoder returns the diagnostic, the value left in [bytes] and the
    cursor with the bytes it stored. *)

Definition FailedNotEncodableInvalid : Z :=
  Z.lor (Z.lor (Z.lor cp_errors.Failed cp_errors.NotEncodable)
               cp_errors.InvalidPoint) cp_errors.NotEnoughBits.

Definition FailedWriteOverflow : Z :=
  Z.lor cp_errors.Failed cp_errors.WriteOverflow.

(** [unicode] is a non-character of the range that the encoders test. *)
Definition nonchar_test (unicode : Z) : bool :=
  (u32 unicode <=? 0x0000fdef) ||
  (Z.land (u32 unicode) 0x0000fffe =? 0x0000fffe).

(** [(unicode & 0xfffff800u) == 0x0000d800u] *)
Definition surrogate_test (unicode : Z) : bool :=
  Z.land (u32 unicode) 0xfffff800 =? 0x0000d800.

(** [unicode & 0x00000400u] as a condition *)
Definition low_bit_test (unicode : Z) : bool :=
  negb (Z.land (u32 unicode) 0x00000400 =? 0).

(** [(static_cast<uint8_t>(x) | o)], stored in a byte *)
Definition lead_byte (x o : Z) : Z := u8 (Z.lor (u8 x) o).

(** [((static_cast<uint8_t>(x) & m) | o)], stored in a byte *)
Definition masked_byte (x m o : Z) : Z := u8 (Z.lor (Z.land (u8 x) m) o).

(** [unicode_t surrogate = (unicode - 0x00010000u);
    surrogate = ((((surrogate >> 10) | (surrogate << 16)) & 0x03ff03ffu) | 0xdc00d800u);] *)
Definition surrogate_word (unicode : Z) : Z :=
  let surrogate := i32 (u32 (u32 unicode - 0x00010000)) in
  i32 (Z.lor
         (Z.land (u32 (Z.lor (Z.shiftr surrogate 10)
                             (i32 (Z.shiftl surrogate 16))))
                 0x03ff03ff)
         0xdc00d800).

(** Store [vs] at the cursor when [limit] allows it. *)
Definition put (text : utf_text) (errors : cp_errors.t) (limit : Z)
    (vs : list Z) : cp_errors.t * Z * utf_text :=
  let n := Z.of_nat (List.length vs) in
  if limit <? n
  then (Z.lor errors FailedWriteOverflow, 0, text)
  else (errors, n, set_buffer text (store (bytes_of text) (offset text) vs)).

Definition encodeBYTE (text : utf_text) (unicode : Z) (use_ascii : bool)
  : cp_errors.t * Z * utf_text :=
  let errors := get_errors text in
  let errors :=
    if u32 unicode <=? 0 then
      Z.lor errors (if negb (unicode =? 0) then FailedNotEncodableInvalid
                    else cp_errors.DelimitString)
    else if (if use_ascii then 0x7f else 0xff) <? u32 unicode then
      let errors :=
        Z.lor errors (Z.lor (Z.lor cp_errors.Failed cp_errors.NotEncodable)
                            cp_errors.NotEnoughBits) in
      if 0x0000d800 <=? u32 unicode then
        if 0x0010ffff <? u32 unicode then Z.lor errors cp_errors.ExtendedUCS4
        else if 0x0000fdd0 <=? u32 unicode then
          let errors :=
            if nonchar_test unicode then Z.lor errors cp_errors.NonCharacter
            else errors in
          if 0x0000ffff <? u32 unicode
          then Z.lor errors cp_errors.Supplementary else errors
        else if surrogate_test unicode then
          Z.lor errors (if low_bit_test unicode then cp_errors.LowSurrogate
                        else cp_errors.HighSurrogate)
        else errors
      else errors
    else errors in
  if cp_errors.no_error errors then
    let limit := u32 (length text - offset text) in
    put text errors limit [u8 unicode]
  else (errors, 0, text).

Definition encodeUTF8 (text : utf_text) (unicode : Z) (use_cesu use_java : bool)
  : cp_errors.t * Z * utf_text :=
  let errors := get_errors text in
  let errors :=
    if u32 unicode <=? 0 then
      Z.lor errors
        (if negb (unicode =? 0) then FailedNotEncodableInvalid
         else if use_java then cp_errors.ModifiedUTF8
         else cp_errors.DelimitString)
    else if 0x0000d800 <=? u32 unicode then
      if 0x0010ffff <? u32 unicode then
        Z.lor errors
          (if 0x001fffff <? u32 unicode
           then Z.lor (Z.lor cp_errors.ExtendedUTF8 cp_errors.ExtendedUCS4)
                      cp_errors.IrregularForm
           else Z.lor cp_errors.ExtendedUCS4 cp_errors.IrregularForm)
      else if 0x0000fdd0 <=? u32 unicode then
        let errors :=
          if nonchar_test unicode then Z.lor errors cp_errors.NonCharacter
          else errors in
        if 0x0000ffff <? u32 unicode then
          Z.lor errors
            (if use_cesu
             then Z.lor cp_errors.Supplementary cp_errors.SurrogatePair
             else cp_errors.Supplementary)
        else errors
      else if surrogate_test unicode then
        Z.lor errors
          (if low_bit_test unicode
           then Z.lor cp_errors.LowSurrogate cp_errors.IrregularForm
           else Z.lor cp_errors.HighSurrogate cp_errors.IrregularForm)
      else errors
    else errors in
  if cp_errors.no_error errors then
    let limit := u32 (length text - offset text) in
    if u32 unicode <=? 0x0000007f then
      if cp_errors.any_of errors cp_errors.ModifiedUTF8
      then put text errors limit [0xc0; 0x80]
      else put text errors limit [u8 unicode]
    else if u32 unicode <=? 0x000007ff then
      put text errors limit
        [lead_byte (Z.shiftr unicode 6) 0xc0;
         masked_byte unicode 0x3f 0x80]
    else if u32 unicode <=? 0x0000ffff then
      put text errors limit
        [lead_byte (Z.shiftr unicode 12) 0xe0;
         masked_byte (Z.shiftr unicode 6) 0x3f 0x80;
         masked_byte unicode 0x3f 0x80]
    else if (u32 unicode <=? 0x0010ffff) &&
            cp_errors.any_of errors cp_errors.SurrogatePair then
      let surrogate := surrogate_word unicode in
      put text errors limit
        [masked_byte (Z.shiftr surrogate 12) 0x0f 0xe0;
         masked_byte (Z.shiftr surrogate 6) 0x3f 0x80;
         masked_byte surrogate 0x3f 0x80;
         masked_byte (Z.shiftr surrogate 28) 0x0f 0xe0;
         masked_byte (Z.shiftr surrogate 22) 0x3f 0x80;
         masked_byte (Z.shiftr surrogate 16) 0x3f 0x80]
    else if u32 unicode <=? 0x001fffff then
      put text errors limit
        [lead_byte (Z.shiftr unicode 18) 0xf0;
         masked_byte (Z.shiftr unicode 12) 0x3f 0x80;
         masked_byte (Z.shiftr unicode 6) 0x3f 0x80;
         masked_byte unicode 0x3f 0x80]
    else if u32 unicode <=? 0x03ffffff then
      put text errors limit
        [lead_byte (Z.shiftr unicode 24) 0xf8;
         masked_byte (Z.shiftr unicode 18) 0x3f 0x80;
         masked_byte (Z.shiftr unicode 12) 0x3f 0x80;
         masked_byte (Z.shiftr unicode 6) 0x3f 0x80;
         masked_byte unicode 0x3f 0x80]
    else
      put text errors limit
        [lead_byte (Z.shiftr unicode 30) 0xfc;
         masked_byte (Z.shiftr unicode 24) 0x3f 0x80;
         masked_byte (Z.shiftr unicode 18) 0x3f 0x80;
         masked_byte (Z.shiftr unicode 12) 0x3f 0x80;
         masked_byte (Z.shiftr unicode 6) 0x3f 0x80;
         masked_byte unicode 0x3f 0x80]
  else (errors, 0, text).

Definition encodeUTF16 (text : utf_text) (unicode : Z) (le use_ucs2 : bool)
  : cp_errors.t * Z * utf_text :=
  let errors := get_errors_aligned text 1 in
  let errors :=
    if u32 unicode <=? 0 then
      Z.lor errors (if negb (unicode =? 0) then FailedNotEncodableInvalid
                    else cp_errors.DelimitString)
    else if 0x0000d800 <=? u32 unicode then
      if 0x0010ffff <? u32 unicode then
        Z.lor errors (Z.lor (Z.lor cp_errors.Failed cp_errors.ExtendedUCS4)
                            cp_errors.NotEnoughBits)
      else if 0x0000fdd0 <=? u32 unicode then
        let errors :=
          if nonchar_test unicode then Z.lor errors cp_errors.NonCharacter
          else errors in
        if 0x0000ffff <? u32 unicode then
          Z.lor errors
            (if use_ucs2
             then Z.lor (Z.lor cp_errors.Failed cp_errors.Supplementary)
                        cp_errors.NotEnoughBits
             else Z.lor cp_errors.Supplementary cp_errors.SurrogatePair)
        else errors
      else if surrogate_test unicode then
        Z.lor errors
          (if low_bit_test unicode
           then Z.lor cp_errors.LowSurrogate cp_errors.IrregularForm
           else Z.lor cp_errors.HighSurrogate cp_errors.IrregularForm)
      else errors
    else errors in
  if cp_errors.no_error errors then
    let limit := u32 (length text - offset text) in
    if cp_errors.any_of errors cp_errors.SurrogatePair then
      let surrogate := surrogate_word unicode in
      if le then
        put text errors limit
          [u8 surrogate; u8 (Z.shiftr surrogate 8);
           u8 (Z.shiftr surrogate 16); u8 (Z.shiftr surrogate 24)]
      else
        put text errors limit
          [u8 (Z.shiftr surrogate 8); u8 surrogate;
           u8 (Z.shiftr surrogate 24); u8 (Z.shiftr surrogate 16)]
    else
      if le then
        put text errors limit [u8 unicode; u8 (Z.shiftr unicode 8)]
      else
        put text errors limit [u8 (Z.shiftr unicode 8); u8 unicode]
  else (errors, 0, text).

Definition encodeUTF32 (text : utf_text) (unicode : Z)
    (le use_cesu use_ucs4 : bool) : cp_errors.t * Z * utf_text :=
  let errors := get_errors_aligned text 3 in
  let errors :=
    if u32 unicode <=? 0 then
      Z.lor errors (if negb (unicode =? 0) then cp_errors.InvalidPoint
                    else cp_errors.DelimitString)
    else if 0x0000d800 <=? u32 unicode then
      if 0x0010ffff <? u32 unicode then
        Z.lor errors
          (if use_ucs4 then cp_errors.ExtendedUCS4
           else Z.lor cp_errors.ExtendedUCS4 cp_errors.IrregularForm)
      else if 0x0000fdd0 <=? u32 unicode then
        let errors :=
          if nonchar_test unicode then Z.lor errors cp_errors.NonCharacter
          else errors in
        if 0x0000ffff <? u32 unicode then
          Z.lor errors
            (if use_cesu
             then Z.lor cp_errors.Supplementary cp_errors.SurrogatePair
             else cp_errors.Supplementary)
        else errors
      else if surrogate_test unicode then
        Z.lor errors
          (if low_bit_test unicode
           then Z.lor cp_errors.LowSurrogate cp_errors.IrregularForm
           else Z.lor cp_errors.HighSurrogate cp_errors.IrregularForm)
      else errors
    else errors in
  if cp_errors.no_error errors then
    let limit := u32 (length text - offset text) in
    if cp_errors.any_of errors cp_errors.SurrogatePair then
      let surrogate := surrogate_word unicode in
      if le then
        put text errors limit
          [u8 surrogate; u8 (Z.shiftr surrogate 8); 0; 0;
           u8 (Z.shiftr surrogate 16); u8 (Z.shiftr surrogate 24); 0; 0]
      else
        put text errors limit
          [0; 0; u8 (Z.shiftr surrogate 8); u8 surrogate;
           0; 0; u8 (Z.shiftr surrogate 24); u8 (Z.shiftr surrogate 16)]
    else
      if le then
        put text errors limit
          [u8 unicode; u8 (Z.shiftr unicode 8);
           u8 (Z.shiftr unicode 16); u8 (Z.shiftr unicode 24)]
      else
        put text errors limit
          [u8 (Z.shiftr unicode 24); u8 (Z.shiftr unicode 16);
           u8 (Z.shiftr unicode 8); u8 unicode]
  else (errors, 0, text).

Definition strictness_of (strict : bool) : CP1252Strictness :=
  if strict then StrictUndefined else WindowsCompatible.

Definition encodeCP1252 (text : utf_text) (unicode : Z) (strict : bool)
  : cp_errors.t * Z * utf_text :=
  let errors := get_errors text in
  let cp1252 := 0 in
  let '(errors, cp1252) :=
    if u32 unicode <=? 0 then
      (Z.lor errors (if negb (unicode =? 0) then FailedNotEncodableInvalid
                     else cp_errors.DelimitString), cp1252)
    else
      let '(ok, cp1252) := unicodeToCP1252 unicode (strictness_of strict) in
      if negb ok then
        let errors :=
          Z.lor errors (Z.lor cp_errors.Failed cp_errors.NotEncodable) in
        let errors :=
          if 0x0000d800 <=? u32 unicode then
            if 0x0010ffff <? u32 unicode
            then Z.lor errors cp_errors.ExtendedUCS4
            else if 0x0000fdd0 <=? u32 unicode then
              let errors :=
                if nonchar_test unicode
                then Z.lor errors cp_errors.NonCharacter else errors in
              if 0x0000ffff <? u32 unicode
              then Z.lor errors cp_errors.Supplementary else errors
            else if surrogate_test unicode then
              Z.lor errors (if low_bit_test unicode
                            then cp_errors.LowSurrogate
                            else cp_errors.HighSurrogate)
            else errors
          else errors in
        (errors, cp1252)
      else (errors, cp1252) in
  if cp_errors.no_error errors then
    let limit := u32 (length text - offset text) in
    put text errors limit [cp1252]
  else (errors, 0, text).

(** ** Low level code-point decoding functions

    A decoder returns the diagnostic and the values left in [unicode] and
    [bytes]. *)

(** The [for (index = 1; index < count; ++index)] scans that shorten [count]
    to the first index whose byte satisfies [stop]; [n] bounds the indices
    left. *)
Fixpoint scan_until (stop : Z -> bool) (b : list Z) (base count : Z)
    (n : nat) (index : Z) : Z :=
  match n with
  | O => count
  | S n' =>
      if index <? count then
        if stop (rd b (base + index)) then index
        else scan_until stop b base count n' (index + 1)
      else count
  end.

(** [((byte & 0xc0u) != 0x80u) && (byte < 0xfeu)] *)
Definition lead_or_ascii (byte : Z) : bool :=
  negb (Z.land byte 0xc0 =? 0x80) && (byte <? 0xfe).

Definition FailedNotDecodable : Z :=
  Z.lor cp_errors.Failed cp_errors.NotDecodable.

(** The continuation loop of [fetchUTF8]; the state is
    [(value, count, errors)]. *)
Fixpoint fetch_cont (b : list Z) (base : Z) (n : nat) (index : Z)
    (value count : Z) (errors : cp_errors.t) : Z * Z * cp_errors.t :=
  match n with
  | O => (value, count, errors)
  | S n' =>
      if index <? count then
        let byte := rd b (base + index) in
        if negb (Z.land byte 0xc0 =? 0x80) then
          let errors := cp_errors.clear errors cp_errors.ReadTruncated in
          let errors :=
            Z.lor errors
              (Z.lor FailedNotDecodable
                 (if 0xfe <=? byte then cp_errors.DisallowedByte
                  else cp_errors.UnexpectedByte)) in
          let errors := cp_errors.set_byte_index errors index in
          (value, index, errors)
        else
          fetch_cont b base n' (index + 1)
            (i32 (Z.lor (i32 (Z.shiftl value 6)) (Z.land byte 0x3f)))
            count errors
      else (value, count, errors)
  end.

(** [(n & ((~n) >> 31)) + 7] with [n] an [int32_t] *)
Definition bits_of_n (n : Z) : Z :=
  Z.land n (Z.shiftr (Z.lnot n) 31) + 7.

(** [internal::fetchUTF8(buffer, size, unicode, bytes, coalesce)], the
    pointer [buffer] being the index [base] of the region [b]. *)
Definition fetchUTF8 (b : list Z) (base size : Z) (coalesce : bool)
  : cp_errors.t * Z * Z :=
  if size <? 1 then (cp_errors.ReadExhausted, 0, 0)
  else
    let byte := rd b base in
    let unicode := byte in
    if u8 (byte + 2) <=? 0xc1 then
      if 0x7f <? byte then
        let errors :=
          Z.lor FailedNotDecodable
            (if 0xfe <=? byte then cp_errors.DisallowedByte
             else cp_errors.UnexpectedByte) in
        if coalesce then
          (errors, unicode,
           scan_until lead_or_ascii b base size (Z.to_nat size) 1)
        else (errors, unicode, 1)
      else (0, unicode, 1)
    else
      let '(count, errors) :=
        if byte <=? 0xef then (Z.land (Z.shiftr byte 5) 3, 0)
        else if byte <=? 0xf7 then (4, 0)
        else (u32 (Z.land (Z.shiftr byte 2) 7 - 1), cp_errors.ExtendedUTF8) in
      let '(count, errors) :=
        if size <? count
        then (size, Z.lor errors (Z.lor FailedNotDecodable
                                        cp_errors.ReadTruncated))
        else (count, errors) in
      let value := Z.land byte (i32 (Z.shiftl 1 (7 - count)) - 1) in
      let '(value, count, errors) :=
        fetch_cont b base (Z.to_nat count) 1 value count errors in
      if cp_errors.no_error errors then
        let n := i32 (Z.lor count (u32 (Z.shiftl count 2))) - 11 in
        let errors :=
          if 1 <? count then
            if Z.shiftr value (bits_of_n n) =? 0 then
              Z.lor errors
                (if (value =? 0) && (count =? 2) then cp_errors.ModifiedUTF8
                 else cp_errors.OverlongUTF8)
            else errors
          else errors in
        (errors, value, count)
      else (errors, unicode, count).

Definition FailedReadTruncated : Z :=
  Z.lor cp_errors.Failed cp_errors.ReadTruncated.

(** The diagnostic of a read that finds fewer bytes than one code unit. *)
Definition over_run (limit : Z) : cp_errors.t :=
  if negb (limit =? 0) then FailedReadTruncated else cp_errors.ReadExhausted.

Definition decodeBYTE (text : utf_text) (use_ascii coalesce : bool)
  : cp_errors.t * Z * Z :=
  let errors := get_errors text in
  if cp_errors.no_error errors then
    let limit := u32 (length text - offset text) in
    if limit <? 1 then (Z.lor errors (over_run limit), 0, 0)
    else
      let b := bytes_of text in
      let base := offset text in
      let unicode := rd b base in
      if use_ascii && negb (Z.land (u32 unicode) 0x00000080 =? 0) then
        let errors :=
          Z.lor errors (Z.lor FailedNotDecodable cp_errors.DisallowedByte) in
        if coalesce then
          (errors, unicode,
           scan_until (fun byte => negb (Z.land byte 0x80 =? 0x80))
                      b base limit (Z.to_nat limit) 1)
        else (errors, unicode, 1)
      else if u32 unicode =? 0 then
        (Z.lor errors cp_errors.DelimitString, unicode, 1)
      else (errors, unicode, 1)
  else (errors, 0, 0).

(** The mask that [decodeUTF8] folds into [IrregularForm]. *)
Definition irregular_mask (use_java : bool) : Z :=
  Z.lor (if use_java then cp_errors.None_ else cp_errors.ModifiedUTF8)
    (Z.lor (Z.lor (Z.lor (Z.lor cp_errors.OverlongUTF8 cp_errors.ExtendedUTF8)
                         cp_errors.ExtendedUCS4)
                  cp_errors.HighSurrogate)
           cp_errors.LowSurrogate).

(** [((unicode & 0x3ffu) << 10) + (lowbits & 0x3ffu) + 0x10000u] *)
Definition join_pair (unicode lowbits : Z) : Z :=
  i32 (u32 (u32 (u32 (Z.shiftl (Z.land (u32 unicode) 0x000003ff) 10)
                 + Z.land (u32 lowbits) 0x000003ff)
            + 0x00010000)).

(** [(lowbits & 0xfffffc00u) == 0x0000dc00u] *)
Definition low_surrogate_test (lowbits : Z) : bool :=
  Z.land (u32 lowbits) 0xfffffc00 =? 0x0000dc00.

Definition pair_bits : Z :=
  Z.lor (Z.lor cp_errors.SurrogatePair cp_errors.Supplementary)
        cp_errors.HighSurrogate.

Definition decodeUTF8 (text : utf_text)
    (use_cesu use_java strict coalesce : bool) : cp_errors.t * Z * Z :=
  let errors := get_errors text in
  if cp_errors.no_error errors then
    let limit := u32 (length text - offset text) in
    let b := bytes_of text in
    let base := offset text in
    let '(fetched, unicode, bytes) :=
      fetchUTF8 b base limit (coalesce && negb strict) in
    let errors := Z.lor errors fetched in
    if cp_errors.no_error errors then
      let '(errors, unicode, bytes) :=
        if 0x0000d800 <=? u32 unicode then
          if 0x0010ffff <? u32 unicode then
            (Z.lor errors cp_errors.ExtendedUCS4, unicode, bytes)
          else if 0x0000fdd0 <=? u32 unicode then
            let errors :=
              if nonchar_test unicode then Z.lor errors cp_errors.NonCharacter
              else errors in
            let errors :=
              if 0x0000ffff <? u32 unicode
              then Z.lor errors cp_errors.Supplementary else errors in
            (errors, unicode, bytes)
          else if surrogate_test unicode then
            if low_bit_test unicode then
              (Z.lor errors cp_errors.LowSurrogate, unicode, bytes)
            else
              let errors := Z.lor errors cp_errors.HighSurrogate in
              if use_cesu then
                let '(check, lowbits, extra) :=
                  fetchUTF8 b (base + bytes) (u32 (limit - bytes)) false in
                if cp_errors.any
                     (Z.land check (Z.lor cp_errors.ReadTruncated
                                          cp_errors.ReadExhausted)) then
                  (Z.lor errors cp_errors.TruncatedPair, unicode, bytes)
                else if cp_errors.no_error check then
                  if low_surrogate_test lowbits then
                    let unicode := join_pair unicode lowbits in
                    let bytes := u32 (bytes + extra) in
                    let errors := Z.lor errors check in
                    let errors := Z.lxor errors pair_bits in
                    let errors :=
                      if Z.land (u32 unicode) 0x0000fffe =? 0x0000fffe
                      then Z.lor errors cp_errors.NonCharacter else errors in
                    (errors, unicode, bytes)
                  else (errors, unicode, bytes)
                else (errors, unicode, bytes)
              else (errors, unicode, bytes)
          else (errors, unicode, bytes)
        else if (u32 unicode =? 0) &&
                cp_errors.none_of errors
                  (Z.lor cp_errors.ModifiedUTF8 cp_errors.OverlongUTF8) then
          (Z.lor errors cp_errors.DelimitString, unicode, bytes)
        else (errors, unicode, bytes) in
      if cp_errors.any_of errors (irregular_mask use_java) then
        let errors := Z.lor errors cp_errors.IrregularForm in
        if strict then (Z.lor errors FailedNotDecodable, rd b base, 1)
        else (errors, unicode, bytes)
      else (errors, unicode, bytes)
    else if strict && (1 <? bytes) then (errors, unicode, 1)
    else (errors, unicode, bytes)
  else (errors, 0, 0).

(** A 16-bit code unit, [(hi << 8) + lo]. *)
Definition unit16 (hi lo : Z) : Z := i32 (i32 (Z.shiftl hi 8) + lo).

(** A 32-bit code unit, [((((((b3 << 8) + b2) << 8) + b1) << 8) + b0)], in
    [int32_t] arithmetic. *)
Definition unit32 (b3 b2 b1 b0 : Z) : Z :=
  i32 (i32 (Z.shiftl (i32 (i32 (Z.shiftl (i32 (i32 (Z.shiftl b3 8) + b2)) 8)
                           + b1)) 8) + b0).

Definition pair_bits_irregular : Z :=
  Z.lor pair_bits cp_errors.IrregularForm.

Definition decodeUTF16 (text : utf_text) (le use_ucs2 : bool)
  : cp_errors.t * Z * Z :=
  let errors := get_errors_aligned text 1 in
  if cp_errors.no_error errors then
    let limit := u32 (length text - offset text) in
    if limit <? 2 then (Z.lor errors (over_run limit), 0, 0)
    else
      let b := bytes_of text in
      let base := offset text in
      let unicode :=
        if le then unit16 (rd b (base + 1)) (rd b base)
        else unit16 (rd b base) (rd b (base + 1)) in
      if 0x0000d800 <=? u32 unicode then
        if 0x0000fdd0 <=? u32 unicode then
          if nonchar_test unicode
          then (Z.lor errors cp_errors.NonCharacter, unicode, 2)
          else (errors, unicode, 2)
        else if surrogate_test unicode then
          let errors := Z.lor errors cp_errors.IrregularForm in
          if low_bit_test unicode then
            (Z.lor errors cp_errors.LowSurrogate, unicode, 2)
          else
            let errors := Z.lor errors cp_errors.HighSurrogate in
            if negb use_ucs2 then
              if limit <? 4 then
                (Z.lor errors cp_errors.TruncatedPair, unicode, 2)
              else
                let lowbits :=
                  if le then unit16 (rd b (base + 3)) (rd b (base + 2))
                  else unit16 (rd b (base + 2)) (rd b (base + 3)) in
                if low_surrogate_test lowbits then
                  let unicode := join_pair unicode lowbits in
                  let errors := Z.lxor errors pair_bits_irregular in
                  let errors :=
                    if Z.land (u32 unicode) 0x0000fffe =? 0x0000fffe
                    then Z.lor errors cp_errors.NonCharacter else errors in
                  (errors, unicode, 4)
                else (errors, unicode, 2)
            else (errors, unicode, 2)
        else (errors, unicode, 2)
      else if u32 unicode =? 0 then
        (Z.lor errors cp_errors.DelimitString, unicode, 2)
      else (errors, unicode, 2)
  else (errors, 0, 0).

Definition decodeUTF32 (text : utf_text) (le use_cesu use_ucs4 : bool)
  : cp_errors.t * Z * Z :=
  let errors := get_errors_aligned text 3 in
  if cp_errors.no_error errors then
    let limit := u32 (length text - offset text) in
    let b := bytes_of text in
    let base := offset text in
    if limit <? 4 then (Z.lor errors (over_run limit), 0, 0)
    else
      let unicode :=
        if le
        then unit32 (rd b (base + 3)) (rd b (base + 2))
                    (rd b (base + 1)) (rd b base)
        else unit32 (rd b base) (rd b (base + 1))
                    (rd b (base + 2)) (rd b (base + 3)) in
      if u32 unicode <=? 0 then
        (Z.lor errors
           (if negb (unicode =? 0)
            then Z.lor cp_errors.InvalidPoint cp_errors.IrregularForm
            else cp_errors.DelimitString), unicode, 4)
      else if 0x0000d800 <=? u32 unicode then
        if 0x0010ffff <? u32 unicode then
          (Z.lor errors
             (if use_ucs4 then cp_errors.ExtendedUCS4
              else Z.lor cp_errors.ExtendedUCS4 cp_errors.IrregularForm),
           unicode, 4)
        else if 0x0000fdd0 <=? u32 unicode then
          let errors :=
            if nonchar_test unicode then Z.lor errors cp_errors.NonCharacter
            else errors in
          let errors :=
            if 0x0000ffff <? u32 unicode
            then Z.lor errors cp_errors.Supplementary else errors in
          (errors, unicode, 4)
        else if surrogate_test unicode then
          let errors := Z.lor errors cp_errors.IrregularForm in
          if low_bit_test unicode then
            (Z.lor errors cp_errors.LowSurrogate, unicode, 4)
          else
            let errors := Z.lor errors cp_errors.HighSurrogate in
            if use_cesu then
              if limit <? 8 then
                (Z.lor errors cp_errors.TruncatedPair, unicode, 4)
              else
                let lowbits :=
                  if le
                  then unit32 (rd b (base + 7)) (rd b (base + 6))
                              (rd b (base + 5)) (rd b (base + 4))
                  else unit32 (rd b (base + 4)) (rd b (base + 5))
                              (rd b (base + 6)) (rd b (base + 7)) in
                if low_surrogate_test lowbits then
                  let unicode := join_pair unicode lowbits in
                  let errors := Z.lxor errors pair_bits_irregular in
                  let errors :=
                    if Z.land (u32 unicode) 0x0000fffe =? 0x0000fffe
                    then Z.lor errors cp_errors.NonCharacter else errors in
                  (errors, unicode, 8)
                else (errors, unicode, 4)
            else (errors, unicode, 4)
        else (errors, unicode, 4)
      else (errors, unicode, 4)
  else (errors, 0, 0).

Definition decodeCP1252 (text : utf_text) (strict coalesce : bool)
  : cp_errors.t * Z * Z :=
  let errors := get_errors text in
  if cp_errors.no_error errors then
    let limit := u32 (length text - offset text) in
    if limit <? 1 then (Z.lor errors (over_run limit), 0, 0)
    else
      let strictness := strictness_of strict in
      let b := bytes_of text in
      let base := offset text in
      let '(ok, unicode) := cp1252ToUnicode (rd b base) strictness in
      if negb ok then
        let errors := Z.lor errors FailedNotDecodable in
        if coalesce then
          (* every call of the loop leaves 0 in [unicode] *)
          (errors, 0,
           scan_until (fun cp1252 => fst (cp1252ToUnicode cp1252 strictness))
                      b base limit (Z.to_nat limit) 1)
        else (errors, unicode, 1)
      else if u32 unicode =? 0 then
        (Z.lor errors cp_errors.DelimitString, unicode, 1)
      else (errors, unicode, 1)
  else (errors, 0, 0).

(** ** Forward skip functions

    A skipper returns the count of code points skipped and the cursor it
    leaves. *)

(** [(count <= limit) ? count : limit] *)
Definition min_count (count limit : Z) : Z :=
  if count <=? limit then count else limit.

(** The loop of [stepBYTE] and [stepCP1252]: [ok byte] tells a byte that
    decodes, [valid] is the flag [ascii] / [valid]; [pos] is the position of
    the moving [buffer] pointer. *)
Fixpoint step_run (ok : Z -> bool) (b : list Z) (count : Z) (n : nat)
    (points limit pos : Z) (valid : bool) : Z * Z :=
  match n with
  | O => (points, limit)
  | S n' =>
      if (points <? count) && (0 <? limit) then
        let limit := u32 (limit - 1) in
        if ok (rd b pos) then
          step_run ok b count n' (u32 (points + 1)) limit (pos + 1) true
        else if valid then
          step_run ok b count n' (u32 (points + 1)) limit (pos + 1) false
        else
          step_run ok b count n' points limit (pos + 1) valid
      else (points, limit)
  end.

Definition stepBYTE (text : utf_text) (count : Z) (use_ascii coalesce : bool)
  : Z * utf_text :=
  if negb (count =? 0) && cp_errors.no_error (get_errors text) then
    let limit := u32 (length text - offset text) in
    if use_ascii && coalesce then
      let '(points, limit) :=
        step_run (fun byte => negb (Z.land byte 0x80 =? 0x80))
                 (bytes_of text) count (Z.to_nat limit)
                 0 limit (offset text) true in
      (points, set_offset text (u32 (length text - limit)))
    else
      let points := min_count count limit in
      (points, set_offset text (u32 (offset text + points)))
  else (0, text).

Definition stepCP1252 (text : utf_text) (count : Z) (strict coalesce : bool)
  : Z * utf_text :=
  if negb (count =? 0) && cp_errors.no_error (get_errors text) then
    let limit := u32 (length text - offset text) in
    if coalesce then
      let strictness := strictness_of strict in
      let '(points, limit) :=
        step_run (fun cp1252 => fst (cp1252ToUnicode cp1252 strictness))
                 (bytes_of text) count (Z.to_nat limit)
                 0 limit (offset text) true in
      (points, set_offset text (u32 (length text - limit)))
    else
      let points := min_count count limit in
      (points, set_offset text (u32 (offset text + points)))
  else (0, text).

(** The pairing loop of [stepUTF16] and [stepUTF32] over code units of
    [size] bytes read by [unit_at]. *)
Fixpoint step_pairs (unit_at : Z -> Z) (size count : Z) (n : nat)
    (points limit pos : Z) (pairing : bool) : Z * Z :=
  match n with
  | O => (points, limit)
  | S n' =>
      if (points <? count) && (size <=? limit) then
        let points := u32 (points + 1) in
        let limit := u32 (limit - size) in
        let unicode := unit_at pos in
        if surrogate_test unicode then
          if Z.land (u32 unicode) 0x00000400 =? 0 then
            step_pairs unit_at size count n' points limit (pos + size) true
          else if pairing then
            step_pairs unit_at size count n' (u32 (points - 1)) limit
                       (pos + size) false
          else
            step_pairs unit_at size count n' points limit (pos + size) pairing
        else
          step_pairs unit_at size count n' points limit (pos + size) false
      else (points, limit)
  end.

(** [points = (limit >> k); if (points > count) points = count;
    limit -= (points << k);] *)
Definition step_units (k count limit : Z) : Z * Z :=
  let points := Z.shiftr limit k in
  let points := if count <? points then count else points in
  (points, u32 (limit - u32 (Z.shiftl points k))).

Definition stepUTF16 (text : utf_text) (count : Z) (le use_ucs2 : bool)
  : Z * utf_text :=
  if negb (count =? 0) && cp_errors.no_error (get_errors_aligned text 1) then
    let limit := u32 (length text - offset text) in
    let b := bytes_of text in
    let '(points, limit) :=
      if use_ucs2 then step_units 1 count limit
      else
        step_pairs
          (fun pos => if le then unit16 (rd b (pos + 1)) (rd b pos)
                      else unit16 (rd b pos) (rd b (pos + 1)))
          2 count (Z.to_nat limit) 0 limit (offset text) false in
    (points, set_offset text (u32 (length text - limit)))
  else (0, text).

Definition stepUTF32 (text : utf_text) (count : Z) (le use_cesu : bool)
  : Z * utf_text :=
  if negb (count =? 0) && cp_errors.no_error (get_errors_aligned text 3) then
    let limit := u32 (length text - offset text) in
    let b := bytes_of text in
    let '(points, limit) :=
      if use_cesu then
        step_pairs
          (fun pos =>
             if le
             then unit32 (rd b (pos + 3)) (rd b (pos + 2))
                         (rd b (pos + 1)) (rd b pos)
             else unit32 (rd b pos) (rd b (pos + 1))
                         (rd b (pos + 2)) (rd b (pos + 3)))
          4 count (Z.to_nat limit) 0 limit (offset text) false
      else step_units 2 count limit in
    (points, set_offset text (u32 (length text - limit)))
  else (0, text).

(** The scanning [while (limit > count)] loops of the UTF8 sequence
    scanners: advance while the byte at [index] satisfies [go]. *)
Fixpoint scan_while (go : Z -> bool) (b : list Z) (limit : Z) (n : nat)
    (count index : Z) : Z * Z :=
  match n with
  | O => (count, index)
  | S n' =>
      if count <? limit then
        if go (rd b index)
        then scan_while go b limit n' (u32 (count + 1)) (u32 (index + 1))
        else (count, index)
      else (count, index)
  end.

(** [(byte & 0xc0u) == 0x80u] *)
Definition is_cont (byte : Z) : bool := Z.land byte 0xc0 =? 0x80.

(** [((byte & 0xc0u) != 0x80u) && (byte <= top)] *)
Definition is_lead (top byte : Z) : bool :=
  negb (Z.land byte 0xc0 =? 0x80) && (byte <=? top).

(** The length that the lead byte of a sequence announces. *)
Definition lead_bytes (byte : Z) : Z :=
  if byte <=? 0xdf then (if byte <=? 0x7f then 1 else 2)
  else if byte <=? 0xf7 then (if byte <=? 0xef then 3 else 4)
  else (if byte <=? 0xfb then 5 else 6).

(** [internal::stepSeqUTF8]: the values left in [bytes] and [extra].  The
    scan reads the lead and the continuation bytes at [buffer[index]], the
    surrogate checks read [buffer[1]] .. [buffer[4]] and [buffer + bytes]. *)
Definition stepSeqUTF8 (b : list Z) (offset limit : Z) (use_cesu : bool)
  : Z * Z :=
  if negb (limit =? 0) then
    let byte := rd b offset in
    let count := 1 in
    let index := u32 (offset + 1) in
    let '(bytes, count, index) :=
      if is_lead 0xfd byte then
        let '(count, index) :=
          scan_while is_cont b limit (Z.to_nat limit) count index in
        let check := count in
        let '(bytes, count, index) :=
          if use_cesu then
            let bytes := check in
            if byte <=? 0x7f then (1, count, index)
            else if byte <=? 0xdf then
              (if 2 <=? limit then 2 else bytes, count, index)
            else
              let '(high_surrogate, bytes) :=
                if byte <=? 0xef then
                  if 3 <=? check
                  then ((byte =? 0xed) && (Z.land (rd b 1) 0xf0 =? 0xa0), 3)
                  else (false, bytes)
                else if byte <=? 0xf7 then
                  if 4 <=? check
                  then ((byte =? 0xf0) && (rd b 1 =? 0x8d) &&
                        (Z.land (rd b 2) 0xf0 =? 0xa0), 4)
                  else (false, bytes)
                else if byte <=? 0xfb then
                  if 5 <=? check
                  then ((byte =? 0xf8) && (rd b 2 =? 0x8d) &&
                        (Z.land (rd b 3) 0xf0 =? 0xa0), 5)
                  else (false, bytes)
                else
                  if 6 <=? check
                  then ((byte =? 0xfc) && (rd b 3 =? 0x8d) &&
                        (Z.land (rd b 4) 0xf0 =? 0xa0), 6)
                  else (false, bytes) in
              if high_surrogate then
                let check := u32 (limit - bytes) in
                if 3 <=? check then
                  let verify := fun i => rd b (bytes + i) in
                  let v0 := verify 0 in
                  let extra :=
                    if v0 =? 0xed then 3
                    else if v0 =? 0xf0 then
                      (if (4 <=? check) && (verify 1 =? 0x8d) then 4 else 0)
                    else if v0 =? 0xf8 then
                      (if (5 <=? check) && is_cont (verify 1) &&
                          (verify 2 =? 0x8d) then 5 else 0)
                    else if v0 =? 0xfc then
                      (if (6 <=? check) && is_cont (verify 1) &&
                          is_cont (verify 2) && (verify 3 =? 0x8d)
                       then 6 else 0)
                    else 0 in
                  if negb (extra =? 0) &&
                     (Z.land (verify (extra - 2)) 0xf0 =? 0xb0) &&
                     is_cont (verify (extra - 1))
                  then (u32 (bytes + extra), u32 (count + extra),
                        u32 (index + extra))
                  else (bytes, count, index)
                else (bytes, count, index)
              else (bytes, count, index)
          else
            let bytes := lead_bytes byte in
            ((if check <? bytes then check else bytes), count, index) in
        (bytes, u32 (count - bytes), index)
      else (0, count, index) in
    let '(count, _) :=
      scan_while (fun byte => negb (is_lead 0xfd byte)) b limit
                 (Z.to_nat limit) count index in
    (bytes, count)
  else (0, 0).

(** [(static_cast<uint16_t>(byte) << 8) | buffer[1]] *)
Definition leading16 (byte next : Z) : Z :=
  u16 (Z.lor (i32 (Z.shiftl (u16 byte) 8)) next).

(** [internal::stepSeqUTF8st]: the values left in [bytes] and [extra].  The
    lead is read at [buffer[index]], the following bytes at [buffer[1]] ..
    [buffer[5]]. *)
Definition stepSeqUTF8st (b : list Z) (offset limit : Z)
    (use_cesu use_java : bool) : Z * Z :=
  if negb (limit =? 0) then
    let byte := rd b offset in
    let bytes :=
      if is_lead 0xf7 byte then
        if byte <=? 0x7f then 1
        else if (2 <=? limit) && is_cont (rd b 1) then
          let leading := leading16 byte (rd b 1) in
          if byte <=? 0xdf then
            if (0xc280 <=? leading) || (use_java && (leading =? 0xc080))
            then 2 else 0
          else if (3 <=? limit) && is_cont (rd b 2) then
            if byte <=? 0xef then
              if 0xe0a0 <=? leading then
                if negb (Z.land leading 0xffe0 =? 0xeda0) then 3
                else if use_cesu && (Z.land leading 0xfff0 =? 0xeda0) &&
                        (6 <=? limit) then
                  if (rd b 3 =? 0xed) && (Z.land (rd b 4) 0xf0 =? 0xa0) &&
                     is_cont (rd b 5)
                  then 6 else 0
                else 0
              else 0
            else if (4 <=? limit) && is_cont (rd b 3) then
              if (0xf090 <=? leading) && (leading <=? 0xf48f) then 4 else 0
            else 0
          else 0
        else 0
      else 0 in
    let count := if negb (bytes =? 0) then bytes else 1 in
    let index := u32 (offset + count) in
    let '(count, _) :=
      scan_while (fun byte => negb (is_lead 0xf7 byte)) b limit
                 (Z.to_nat limit) count index in
    (bytes, u32 (count - bytes))
  else (0, 0).

(** The loop of [stepUTF8]; [None] when [fuel] iterations do not reach the
    exit of the loop. *)
Fixpoint stepUTF8_loop (fuel : nat) (b : list Z) (count : Z)
    (use_cesu use_java strict coalesce : bool)
    (points offset limit extra : Z) : option (Z * Z) :=
  match fuel with
  | O => None
  | S fuel' =>
      if (points <? count) && (0 <? limit) then
        if negb (extra =? 0) then
          if coalesce && negb strict then
            stepUTF8_loop fuel' b count use_cesu use_java strict coalesce
              (u32 (points + 1)) (u32 (offset + extra)) (u32 (limit - extra)) 0
          else
            let points := u32 (points + extra) in
            let offset := u32 (offset + extra) in
            let limit := u32 (limit - extra) in
            if count <? points then
              stepUTF8_loop fuel' b count use_cesu use_java strict coalesce
                count (u32 (offset - u32 (points - count))) limit 0
            else
              stepUTF8_loop fuel' b count use_cesu use_java strict coalesce
                points offset limit 0
        else
          let '(bytes, extra) :=
            if strict then stepSeqUTF8st b offset limit use_cesu use_java
            else stepSeqUTF8 b offset limit use_cesu in
          if negb (bytes =? 0) then
            stepUTF8_loop fuel' b count use_cesu use_java strict coalesce
              (u32 (points + 1)) (u32 (offset + bytes)) (u32 (limit - bytes))
              extra
          else
            stepUTF8_loop fuel' b count use_cesu use_java strict coalesce
              points offset limit extra
      else Some (points, offset)
  end.

(** [stepUTF8]; the loop takes at most two iterations for a code point. *)
Definition stepUTF8 (text : utf_text) (count : Z)
    (use_cesu use_java strict coalesce : bool) : option (Z * utf_text) :=
  if negb (count =? 0) && cp_errors.no_error (get_errors text) then
    match stepUTF8_loop (Z.to_nat (2 * count + 1)) (bytes_of text) count
            use_cesu use_java strict coalesce
            0 (offset text) (u32 (length text - offset text)) 0 with
    | Some (points, offset) => Some (points, set_offset text offset)
    | None => None
    end
  else Some (0, text).

(** ** UTF8 overlong encoding index functions *)

(** [overlongToIndexUTF8]: the result flag and the value left in [index].
    The guard [unicode >= 0x00000000u] is an unsigned comparison. *)
Definition overlongToIndexUTF8 (unicode bytes : Z) : bool * Z :=
  if 0 <=? u32 unicode then
    if bytes =? 2 then
      if u32 unicode <? 0x00000080 then (true, u32 unicode) else (false, 0)
    else if bytes =? 3 then
      if u32 unicode <? 0x00000800
      then (true, u32 (u32 unicode + 0x00000080)) else (false, 0)
    else if bytes =? 4 then
      if u32 unicode <? 0x00010000
      then (true, u32 (u32 unicode + 0x00000880)) else (false, 0)
    else if bytes =? 5 then
      if u32 unicode <? 0x00200000
      then (true, u32 (u32 unicode + 0x00010880)) else (false, 0)
    else if bytes =? 6 then
      if u32 unicode <? 0x04000000
      then (true, u32 (u32 unicode + 0x00210880)) else (false, 0)
    else (false, 0)
  else (false, 0).

(** [indexToOverlongUTF8]: the result flag and the values left in [unicode]
    and [bytes]. *)
Definition indexToOverlongUTF8 (index : Z) : bool * Z * Z :=
  if index <? 0x00000080 then (true, i32 index, 2)
  else if index <? 0x00000880 then (true, i32 (u32 (index - 0x00000080)), 3)
  else if index <? 0x00010880 then (true, i32 (u32 (index - 0x00000880)), 4)
  else if index <? 0x00210880 then (true, i32 (u32 (index - 0x00010880)), 5)
  else if index <? 0x04210880 then (true, i32 (u32 (index - 0x00210880)), 6)
  else (false, 0, 0).

(** ** The handlers *)

Inductive UTF_SUB_TYPE : Type :=
  | UTF8 | UTF8ns | UTF8st | JUTF8 | JUTF8ns | JUTF8st
  | CESU8 | CESU8ns | CESU8st | JCESU8 | JCESU8ns | JCESU8st
  | UTF16le | UTF16be | UCS2le | UCS2be
  | UTF32le | UTF32be | UCS4le | UCS4be
  | CESU32le | CESU32be | CESU4le | CESU4be
  | BYTE | BYTEns | ASCII | ASCIIns
  | CP1252 | CP1252ns | CP1252st.

Definition all_sub_types : list UTF_SUB_TYPE :=
  [UTF8; UTF8ns; UTF8st; JUTF8; JUTF8ns; JUTF8st;
   CESU8; CESU8ns; CESU8st; JCESU8; JCESU8ns; JCESU8st;
   UTF16le; UTF16be; UCS2le; UCS2be;
   UTF32le; UTF32be; UCS4le; UCS4be;
   CESU32le; CESU32be; CESU4le; CESU4be;
   BYTE; BYTEns; ASCII; ASCIIns;
   CP1252; CP1252ns; CP1252st].

Module IUTFTK.

(** [unitSize()] *)
Definition unitSize (T : UTF_SUB_TYPE) : Z :=
  match T with
  | UTF16le | UTF16be | UCS2le | UCS2be => 2
  | UTF32le | UTF32be | UCS4le | UCS4be
  | CESU32le | CESU32be | CESU4le | CESU4be => 4
  | _ => 1
  end.

(** [len(unicode)] of every handler *)
Definition len (T : UTF_SUB_TYPE) (unicode : Z) : Z :=
  match T with
  | UTF8 | UTF8ns | UTF8st => lenUTF8 unicode false false
  | JUTF8 | JUTF8ns | JUTF8st => lenUTF8 unicode false true
  | CESU8 | CESU8ns | CESU8st => lenUTF8 unicode true false
  | JCESU8 | JCESU8ns | JCESU8st => lenUTF8 unicode true true
  | UTF16le | UTF16be => lenUTF16 unicode false
  | UCS2le | UCS2be => lenUTF16 unicode true
  | UTF32le | UTF32be => lenUTF32 unicode false false
  | UCS4le | UCS4be => lenUTF32 unicode false true
  | CESU32le | CESU32be => lenUTF32 unicode true false
  | CESU4le | CESU4be => lenUTF32 unicode true true
  | BYTE | BYTEns => lenMasked unicode 0x000000ff
  | ASCII | ASCIIns => lenMasked unicode 0x0000007f
  | CP1252 | CP1252ns | CP1252st => lenMasked unicode 0x0000007f
  end.

(** [get(text, unicode, bytes)] of every handler *)
Definition get (T : UTF_SUB_TYPE) (text : utf_text) : cp_errors.t * Z * Z :=
  match T with
  | UTF8 => decodeUTF8 text false false false true
  | UTF8ns => decodeUTF8 text false false false false
  | UTF8st => decodeUTF8 text false false true false
  | JUTF8 => decodeUTF8 text false true false true
  | JUTF8ns => decodeUTF8 text false true false false
  | JUTF8st => decodeUTF8 text false true true false
  | CESU8 => decodeUTF8 text true false false true
  | CESU8ns => decodeUTF8 text true false false false
  | CESU8st => decodeUTF8 text true false true false
  | JCESU8 => decodeUTF8 text true true false true
  | JCESU8ns => decodeUTF8 text true true false false
  | JCESU8st => decodeUTF8 text true true true false
  | UTF16le => decodeUTF16 text true false
  | UTF16be => decodeUTF16 text false false
  | UCS2le => decodeUTF16 text true true
  | UCS2be => decodeUTF16 text false true
  | UTF32le => decodeUTF32 text true false false
  | UTF32be => decodeUTF32 text false false false
  | UCS4le => decodeUTF32 text true false true
  | UCS4be => decodeUTF32 text false false true
  | CESU32le => decodeUTF32 text true true false
  | CESU32be => decodeUTF32 text false true false
  | CESU4le => decodeUTF32 text true true true
  | CESU4be => decodeUTF32 text false true true
  | BYTE => decodeBYTE text false true
  | BYTEns => decodeBYTE text false false
  | ASCII => decodeBYTE text true true
  | ASCIIns => decodeBYTE text true false
  | CP1252 => decodeCP1252 text false true
  | CP1252ns => decodeCP1252 text false false
  | CP1252st => decodeCP1252 text true false
  end.

(** [set(text, unicode, bytes)] of every handler *)
Definition set (T : UTF_SUB_TYPE) (text : utf_text) (unicode : Z)
  : cp_errors.t * Z * utf_text :=
  match T with
  | UTF8 | UTF8ns | UTF8st => encodeUTF8 text unicode false false
  | JUTF8 | JUTF8ns | JUTF8st => encodeUTF8 text unicode false true
  | CESU8 | CESU8ns | CESU8st => encodeUTF8 text unicode true false
  | JCESU8 | JCESU8ns | JCESU8st => encodeUTF8 text unicode true true
  | UTF16le => encodeUTF16 text unicode true false
  | UTF16be => encodeUTF16 text unicode false false
  | UCS2le => encodeUTF16 text unicode true true
  | UCS2be => encodeUTF16 text unicode false true
  | UTF32le => encodeUTF32 text unicode true false false
  | UTF32be => encodeUTF32 text unicode false false false
  | UCS4le => encodeUTF32 text unicode true false true
  | UCS4be => encodeUTF32 text unicode false false true
  | CESU32le => encodeUTF32 text unicode true true false
  | CESU32be => encodeUTF32 text unicode false true false
  | CESU4le => encodeUTF32 text unicode true true true
  | CESU4be => encodeUTF32 text unicode false true true
  | BYTE | BYTEns => encodeBYTE text unicode false
  | ASCII | ASCIIns => encodeBYTE text unicode true
  | CP1252 | CP1252ns => encodeCP1252 text unicode false
  | CP1252st => encodeCP1252 text unicode true
  end.

(** [step(text, count)] of every handler.  The UTF8 handlers pass three
    flags to [stepUTF8], which takes them as [use_cesu], [use_java] and
    [strict]; [coalesce] keeps its default [true]. *)
Definition step (T : UTF_SUB_TYPE) (text : utf_text) (count : Z)
  : option (Z * utf_text) :=
  match T with
  | UTF8 => stepUTF8 text count false false true true
  | UTF8ns => stepUTF8 text count false false false true
  | UTF8st => stepUTF8 text count false true false true
  | JUTF8 => stepUTF8 text count false false true true
  | JUTF8ns => stepUTF8 text count false false false true
  | JUTF8st => stepUTF8 text count false true false true
  | CESU8 => stepUTF8 text count true false true true
  | CESU8ns => stepUTF8 text count true false false true
  | CESU8st => stepUTF8 text count true true false true
  | JCESU8 => stepUTF8 text count true false true true
  | JCESU8ns => stepUTF8 text count true false false true
  | JCESU8st => stepUTF8 text count true true false true
  | UTF16le => Some (stepUTF16 text count true false)
  | UTF16be => Some (stepUTF16 text count false false)
  | UCS2le => Some (stepUTF16 text count true true)
  | UCS2be => Some (stepUTF16 text count false true)
  | UTF32le => Some (stepUTF32 text count true false)
  | UTF32be => Some (stepUTF32 text count false false)
  | UCS4le => Some (stepUTF32 text count true false)
  | UCS4be => Some (stepUTF32 text count false false)
  | CESU32le => Some (stepUTF32 text count true true)
  | CESU32be => Some (stepUTF32 text count false true)
  | CESU4le => Some (stepUTF32 text count true true)
  | CESU4be => Some (stepUTF32 text count false true)
  | BYTE => Some (stepBYTE text count false true)
  | BYTEns => Some (stepBYTE text count false false)
  | ASCII => Some (stepBYTE text count true true)
  | ASCIIns => Some (stepBYTE text count true false)
  | CP1252 => Some (stepCP1252 text count false true)
  | CP1252ns => Some (stepCP1252 text count false false)
  | CP1252st => Some (stepCP1252 text count true false)
  end.

(** [read(text, unicode)]: [get], then [text.offset += bytes]. *)
Definition read (T : UTF_SUB_TYPE) (text : utf_text)
  : cp_errors.t * Z * utf_text :=
  let '(errors, unicode, bytes) := get T text in
  (errors, unicode, set_offset text (u32 (offset text + bytes))).

(** [write(text, unicode)]: [set], then [text.offset += bytes]. *)
Definition write (T : UTF_SUB_TYPE) (text : utf_text) (unicode : Z)
  : cp_errors.t * utf_text :=
  let '(errors, bytes, text) := set T text unicode in
  (errors, set_offset text (u32 (offset text + bytes))).

End IUTFTK.

(** ** Walking a buffer

    The byte offsets visited from the start of a buffer to its end, by
    [get] followed by an advance of [bytes], and by [step] of one code
    point.  A walk stops when the cursor stops moving; [None] when a step
    does not return. *)

Definition cursor (b : list Z) (o : Z) : utf_text :=
  mk_text (Z.of_nat (List.length b)) o (Some b).

Fixpoint decode_walk (T : UTF_SUB_TYPE) (b : list Z) (n : nat) (o : Z)
  : list Z :=
  match n with
  | O => [o]
  | S n' =>
      let '(_, _, bytes) := IUTFTK.get T (cursor b o) in
      if bytes =? 0 then [o]
      else o :: decode_walk T b n' (u32 (o + bytes))
  end.

Fixpoint step_walk (T : UTF_SUB_TYPE) (b : list Z) (n : nat) (o : Z)
  : option (list Z) :=
  match n with
  | O => Some [o]
  | S n' =>
      match IUTFTK.step T (cursor b o) 1 with
      | None => None
      | Some (_, text) =>
          if offset text =? o then Some [o]
          else option_map (cons o) (step_walk T b n' (offset text))
      end
  end.

Definition decode_offsets (T : UTF_SUB_TYPE) (b : list Z) : list Z :=
  decode_walk T b (List.length b) 0.

Definition step_offsets (T : UTF_SUB_TYPE) (b : list Z) : option (list Z) :=
  step_walk T b (List.length b) 0.

(** The valid Unicode scalars: U+0000..U+10FFFF without U+D800..U+DFFF. *)
Definition valid_scalar (s : Z) : Prop :=
  0 <= s <= 0x10ffff /\ ~ (0xd800 <= s <= 0xdfff).

(** ** Predicates of the statements *)

(** The diagnostic [e] has no bit of [mask]. *)
Definition lacks (mask : Z) (e : cp_errors.t) : Prop := Z.land e mask = 0.

(** The offset and the length of the cursor are multiples of the code-unit
    size of the handler. *)
Definition aligned (T : UTF_SUB_TYPE) (text : utf_text) : Prop :=
  offset text mod IUTFTK.unitSize T = 0 /\
  length text mod IUTFTK.unitSize T = 0.



(** The handlers whose decoder coalesces a run of invalid UTF8 bytes. *)
Definition coalesces_utf8 (T : UTF_SUB_TYPE) : bool :=
  match T with
  | UTF8 | JUTF8 | CESU8 | JCESU8 => true
  | _ => false
  end.

(** [P] holds of the [n] integers from [z] on; used to settle facts about
    bytes and other small fields by evaluation. *)
Fixpoint all_from (n : nat) (z : Z) (P : Z -> bool) : bool :=
  match n with
  | O => true
  | S n' => P z && all_from n' (z + 1) P
  end.

(** The diagnostic of [fetchUTF8] for a scalar [v] read from [k] bytes,
    [low] being the least scalar that needs [k] bytes. *)
Definition overlong_bits (v k low : Z) : cp_errors.t :=
  if v <? low
  then (if (v =? 0) && (k =? 2) then cp_errors.ModifiedUTF8
        else cp_errors.OverlongUTF8)
  else 0.


(** The region [b] holds the bytes [vs] from the index [i] on. *)
Definition holds (b : list Z) (i : Z) (vs : list Z) : Prop :=
  forall k, (k < List.length vs)%nat -> rd b (i + Z.of_nat k) = nth k vs 0.

(** The UTF-8 sequences of two, three and four bytes of a scalar, and the
    surrogates of a supplementary scalar, in arithmetic. *)
Definition utf8_seq2 (v : Z) : list Z := [192 + v / 64; 128 + v mod 64].

Definition utf8_seq3 (v : Z) : list Z :=
  [224 + v / 4096; 128 + (v / 64) mod 64; 128 + v mod 64].

Definition utf8_seq4 (v : Z) : list Z :=
  [240 + v / 262144; 128 + (v / 4096) mod 64; 128 + (v / 64) mod 64;
   128 + v mod 64].

Definition high_surrogate (s : Z) : Z := 0xd800 + (s - 0x10000) / 1024.

Definition low_surrogate (s : Z) : Z := 0xdc00 + (s - 0x10000) mod 1024.

(** The bytes of a valid scalar under the UTF-8 handlers. *)
Definition utf8_bytes (s : Z) (use_cesu use_java : bool) : list Z :=
  if s =? 0 then (if use_java then [0xc0; 0x80] else [0])
  else if s <=? 0x7f then [s]
  else if s <=? 0x7ff then utf8_seq2 s
  else if s <=? 0xffff then utf8_seq3 s
  else if use_cesu
       then utf8_seq3 (high_surrogate s) ++ utf8_seq3 (low_surrogate s)
       else utf8_seq4 s.

(** * Theorems *)

(** ** Tactics and arithmetic of the machine integers *)

(** [lia] also solves goals with division and remainder by constants. *)
Ltac Zify.zify_post_hook ::= Z.to_euclidean_division_equations.

Ltac zbool_case :=
  match goal with
  | |- context [?a <=? ?b] => destruct (Z.leb_spec a b)
  | |- context [?a <? ?b] => destruct (Z.ltb_spec a b)
  | |- context [?a =? ?b] => destruct (Z.eqb_spec a b)
  end.

Ltac zbool_cases := repeat (zbool_case; try lia); try reflexivity; try lia.

Lemma u32_small z : 0 <= z < 4294967296 -> u32 z = z.
Proof. intros H. unfold u32. apply Z.mod_small; lia. Qed.

Lemma u32_neg z : -4294967296 <= z < 0 -> u32 z = z + 4294967296.
Proof. intros H. unfold u32. lia. Qed.

Lemma u32_range z : 0 <= u32 z < 4294967296.
Proof. unfold u32. apply Z.mod_pos_bound. lia. Qed.

Lemma i32_small z : -2147483648 <= z < 2147483648 -> i32 z = z.
Proof. intros H. unfold i32. lia. Qed.

Lemma u8_small z : 0 <= z < 256 -> u8 z = z.
Proof. intros H. unfold u8. apply Z.mod_small; lia. Qed.

(** ** The diagnostic bitset: [any()] and the byte index (C4) *)

(** What [any()] answers on a diagnostic that holds a byte index only. *)
Lemma any_of_byte_index (i : Z) :
  0 <= i <= 7 ->
  cp_errors.any (cp_errors.set_byte_index 0 i) = Z.odd i.
Proof.
  intros H.
  assert (i = 0 \/ i = 1 \/ i = 2 \/ i = 3 \/ i = 4 \/ i = 5 \/ i = 6 \/ i = 7)
    as Hi by lia.
  repeat (destruct Hi as [Hi | Hi]; [subst i; reflexivity | ]).
  subst i; reflexivity.
Qed.

(** C4 (defect of the code): a diagnostic whose only set bit is the lowest
    bit of the byte index, as [set_byte_index(1)] leaves it on an empty
    diagnostic, lies wholly inside the byte-index region and yet [any()]
    answers true, because [ReservedMask] names [ReservedBit1] twice and
    omits [ReservedBit0]. *)
Theorem C4_any_sees_byte_index_one :
  cp_errors.set_byte_index 0 1 = 1 /\
  Z.land 1 (cp_errors.not32 cp_errors.ByteIndexMask) = 0 /\
  cp_errors.get_byte_index 1 = 1 /\
  cp_errors.ReservedMask = 14 /\
  cp_errors.any 1 = true.
Proof. repeat split. Qed.

(** ** [lenUTF16] (C5) *)

(** C5, counterexample: the high surrogate U+D800 has length 2, not 0. *)
Lemma C5_counterexample_surrogate_length :
  lenUTF16 0xD800 false = 2 /\ lenUTF16 0xD800 false <> 0.
Proof. split; [reflexivity | discriminate]. Qed.

(** C5, amended: [lenUTF16] returns 2 for every scalar of U+0000..U+FFFF,
    surrogates included, 4 for the scalars of U+10000..U+10FFFF unless
    [use_ucs2] (then 0), and 0 for every other scalar. *)
Theorem C5_lenUTF16_amended (s : Z) (use_ucs2 : bool) :
  is_i32 s ->
  lenUTF16 s use_ucs2 =
    if (0 <=? s) && (s <=? 0xFFFF) then 2
    else if (0x10000 <=? s) && (s <=? 0x10FFFF)
         then (if use_ucs2 then 0 else 4)
         else 0.
Proof.
  unfold is_i32, lenUTF16. intros H.
  destruct (Z.ltb_spec s 0) as [Hneg | Hpos].
  - rewrite (u32_neg s) by lia. destruct use_ucs2; cbn [negb]; zbool_cases.
  - rewrite (u32_small s) by lia. destruct use_ucs2; cbn [negb]; zbool_cases.
Qed.

Lemma C5_lenUTF16_amended_witness :
  is_i32 0xDFFF /\ lenUTF16 0xDFFF true = 2.
Proof.
  split.
  - unfold is_i32; lia.
  - apply (C5_lenUTF16_amended 0xDFFF true). unfold is_i32; lia.
Defined.

(** ** The overlong index codec (C9) *)

(** C9: every index below 0x04210880 maps to a scalar and a byte count of
    2..6 from which [overlongToIndexUTF8] gives the index back; every other
    index is refused. *)
Theorem C9_overlong_index_bijection (i : Z) :
  is_u32 i ->
  (i < 0x04210880 ->
   exists unicode bytes,
     indexToOverlongUTF8 i = (true, unicode, bytes) /\
     2 <= bytes <= 6 /\
     overlongToIndexUTF8 unicode bytes = (true, i)) /\
  (0x04210880 <= i -> indexToOverlongUTF8 i = (false, 0, 0)).
Proof.
  unfold is_u32. intros Hi. split.
  - intros Hlt. unfold indexToOverlongUTF8, overlongToIndexUTF8.
    repeat (zbool_case; try lia);
      eexists; eexists; (split; [reflexivity | split; [lia | ]]);
      repeat match goal with
             | |- context [u32 ?x] => rewrite (u32_small x) by lia
             | |- context [i32 ?x] => rewrite (i32_small x) by lia
             end;
      repeat (zbool_case; try lia);
      f_equal; lia.
  - intros Hge. unfold indexToOverlongUTF8. zbool_cases.
Qed.

Lemma C9_overlong_index_bijection_witness :
  is_u32 0x880 /\
  (exists unicode bytes,
     indexToOverlongUTF8 0x880 = (true, unicode, bytes) /\
     2 <= bytes <= 6 /\
     overlongToIndexUTF8 unicode bytes = (true, 0x880)).
Proof.
  assert (is_u32 0x880) as H by (unfold is_u32; lia).
  split; [exact H | ].
  apply (proj1 (C9_overlong_index_bijection 0x880 H)). lia.
Defined.

(** ** Scenario S1: the surrogate pair round trip of CESU-8 (C8) *)

(** C8: in CESU mode [encodeUTF8] stores U+1F600 as ED A0 BD ED B8 80 and
    reports 6 bytes, and [decodeUTF8] reads these six bytes back as U+1F600,
    6 bytes, with exactly [SurrogatePair | Supplementary] set, which holds
    no hard error; whatever the other flags are. *)
Theorem C8_cesu8_surrogate_pair_round_trip
    (use_java strict coalesce : bool) :
  encodeUTF8 (cursor [0; 0; 0; 0; 0; 0] 0) 0x1F600 true use_java =
    (Z.lor cp_errors.SurrogatePair cp_errors.Supplementary, 6,
     cursor [0xED; 0xA0; 0xBD; 0xED; 0xB8; 0x80] 0) /\
  decodeUTF8 (cursor [0xED; 0xA0; 0xBD; 0xED; 0xB8; 0x80] 0)
             true use_java strict coalesce =
    (Z.lor cp_errors.SurrogatePair cp_errors.Supplementary, 0x1F600, 6) /\
  cp_errors.error (Z.lor cp_errors.SurrogatePair cp_errors.Supplementary)
    = false.
Proof.
  destruct use_java, strict, coalesce; repeat split; vm_compute; reflexivity.
Qed.

(** ** Masks of the diagnostic *)

Lemma land_lxor_distr (a b m : Z) :
  Z.land (Z.lxor a b) m = Z.lxor (Z.land a m) (Z.land b m).
Proof.
  apply Z.bits_inj'. intros n Hn.
  rewrite Z.land_spec, !Z.lxor_spec, !Z.land_spec.
  destruct (Z.testbit a n), (Z.testbit b n), (Z.testbit m n); reflexivity.
Qed.

Lemma lacks_lor (m a b : Z) : lacks m a -> lacks m b -> lacks m (Z.lor a b).
Proof.
  unfold lacks. intros Ha Hb.
  rewrite Z.land_lor_distr_l, Ha, Hb. reflexivity.
Qed.

Lemma lacks_lor_inv (m a b : Z) :
  lacks m (Z.lor a b) -> lacks m a /\ lacks m b.
Proof.
  unfold lacks. rewrite Z.land_lor_distr_l. intros H.
  apply Z.lor_eq_0_iff in H. exact H.
Qed.

Lemma lacks_lxor (m a b : Z) : lacks m a -> lacks m b -> lacks m (Z.lxor a b).
Proof.
  unfold lacks. intros Ha Hb. rewrite land_lxor_distr, Ha, Hb. reflexivity.
Qed.

Lemma lacks_lxor_inv (m a b : Z) :
  lacks m (Z.lxor a b) -> lacks m b -> lacks m a.
Proof.
  unfold lacks. rewrite land_lxor_distr. intros H Hb.
  rewrite Hb, Z.lxor_0_r in H. exact H.
Qed.

Lemma lacks_land (m a k : Z) : lacks m a -> lacks m (Z.land a k).
Proof.
  unfold lacks. intros Ha.
  rewrite <- Z.land_assoc, (Z.land_comm k m), Z.land_assoc, Ha.
  apply Z.land_0_l.
Qed.

Lemma lacks_land_mask (m a k : Z) : Z.land k m = 0 -> lacks m (Z.land a k).
Proof.
  unfold lacks. intros Hk. rewrite <- Z.land_assoc, Hk. apply Z.land_0_r.
Qed.

Lemma any_of_false (e m : Z) : cp_errors.any_of e m = false <-> lacks m e.
Proof.
  unfold cp_errors.any_of, lacks.
  destruct (Z.eqb_spec (Z.land e m) 0); cbn; split; intros; congruence.
Qed.

Lemma any_of_true (e m : Z) : cp_errors.any_of e m = true <-> ~ lacks m e.
Proof.
  unfold cp_errors.any_of, lacks.
  destruct (Z.eqb_spec (Z.land e m) 0); cbn; split; intros; congruence.
Qed.

Lemma no_error_lacks (e : Z) :
  cp_errors.no_error e = true <-> lacks cp_errors.ErrorsMask e.
Proof.
  unfold cp_errors.no_error, cp_errors.error.
  rewrite negb_true_iff. apply any_of_false.
Qed.

Lemma error_lacks (e : Z) :
  cp_errors.error e = false <-> lacks cp_errors.ErrorsMask e.
Proof. unfold cp_errors.error. apply any_of_false. Qed.

Lemma lacks_set_byte_index (m e index : Z) :
  Z.land cp_errors.ByteIndexMask m = 0 ->
  lacks m e -> lacks m (cp_errors.set_byte_index e index).
Proof.
  intros Hm He. unfold cp_errors.set_byte_index.
  apply lacks_lor.
  - apply lacks_land. exact He.
  - apply lacks_land_mask. exact Hm.
Qed.

Lemma lacks_clear (m e k : Z) : lacks m e -> lacks m (cp_errors.clear e k).
Proof. intros He. unfold cp_errors.clear. apply lacks_land. exact He. Qed.

(** Closed facts about masks are settled by evaluation. *)
Ltac lacks_const := unfold lacks; reflexivity.

Ltac lacks_solve :=
  repeat match goal with
         | |- lacks _ (Z.lor _ _) => apply lacks_lor
         | |- lacks _ (Z.lxor _ _) => apply lacks_lxor
         | |- lacks _ (cp_errors.clear _ _) => apply lacks_clear
         | |- lacks _ (cp_errors.set_byte_index _ _) =>
             apply lacks_set_byte_index; [reflexivity | ]
         | |- lacks _ (if ?c then _ else _) => destruct c
         | |- lacks _ _ => first [assumption | lacks_const]
         end.

(** ** Well-formed cursors *)

Lemma well_formed_get_errors (text : utf_text) :
  well_formed text -> get_errors text = 0.
Proof.
  intros (b & Hb & Hlen & Hmax & Hbytes & Hoff).
  unfold get_errors. rewrite Hb.
  destruct (Z.ltb_spec (length text) (offset text)); [lia | reflexivity].
Qed.

Lemma well_formed_limit (text : utf_text) :
  well_formed text ->
  u32 (length text - offset text) = length text - offset text /\
  0 <= length text - offset text.
Proof.
  intros (b & Hb & Hlen & Hmax & Hbytes & Hoff).
  split; [apply u32_small | ]; lia.
Qed.

Lemma get_errors_aligned_cases (text : utf_text) (mask : Z) :
  well_formed text ->
  (get_errors_aligned text mask = 0 /\
   Z.land (offset text) mask = 0 /\ Z.land (length text) mask = 0) \/
  cp_errors.no_error (get_errors_aligned text mask) = false.
Proof.
  intros Hwf. unfold get_errors_aligned.
  rewrite (well_formed_get_errors text Hwf).
  destruct (Z.eqb_spec (Z.land (offset text) mask) 0) as [Ho | Ho];
    destruct (Z.eqb_spec (Z.land (length text) mask) 0) as [Hl | Hl];
    cbn [negb]; auto.
Qed.

(** ** Facts about bytes, by evaluation over the 256 bytes *)

Lemma all_from_spec (n : nat) (P : Z -> bool) :
  forall z, all_from n z P = true ->
  forall x, z <= x < z + Z.of_nat n -> P x = true.
Proof.
  induction n as [| n IH]; intros z H x Hx.
  - lia.
  - cbn [all_from] in H. apply andb_true_iff in H. destruct H as [Hz Hrest].
    destruct (Z.eq_dec x z) as [-> | Hne]; [exact Hz | ].
    apply (IH (z + 1) Hrest). lia.
Qed.

Lemma byte_cases (P : Z -> bool) :
  all_from 256 0 P = true -> forall x, is_u8 x -> P x = true.
Proof.
  intros H x Hx. apply (all_from_spec 256 P 0 H). unfold is_u8 in Hx. lia.
Qed.

Lemma range_cases (lo hi : Z) (P : Z -> bool) :
  all_from (Z.to_nat (hi - lo)) lo P = true ->
  forall x, lo <= x < hi -> P x = true.
Proof.
  intros H x Hx. apply (all_from_spec _ P lo H). lia.
Qed.

(** Turn a boolean fact into a proposition. *)
Ltac unbool H :=
  repeat first
    [ rewrite implb_true_iff in H
    | rewrite andb_true_iff in H
    | rewrite orb_true_iff in H
    | rewrite negb_true_iff in H
    | rewrite Z.leb_le in H
    | rewrite Z.ltb_lt in H
    | rewrite Z.eqb_eq in H
    | rewrite Z.eqb_neq in H
    | rewrite Z.leb_gt in H
    | rewrite Z.ltb_ge in H ].

Lemma rd_byte (b : list Z) (i : Z) : Forall is_u8 b -> is_u8 (rd b i).
Proof.
  intros Hb. unfold rd.
  destruct (nth_in_or_default (Z.to_nat i) b 0) as [Hin | Hd].
  - rewrite Forall_forall in Hb. apply Hb. exact Hin.
  - rewrite Hd. unfold is_u8. lia.
Qed.

(** The count that [fetchUTF8] reads off a lead byte of C0..FD. *)
Lemma lead_count (x : Z) :
  is_u8 x -> 0xc1 < u8 (x + 2) ->
  (x <= 0xef -> 2 <= Z.land (Z.shiftr x 5) 3 <= 3) /\
  (0xf7 < x -> 5 <= u32 (Z.land (Z.shiftr x 2) 7 - 1) <= 6).
Proof.
  intros Hx Hlead.
  pose proof (byte_cases
    (fun x => implb (0xc1 <? u8 (x + 2))
       (implb (x <=? 0xef)
              ((2 <=? Z.land (Z.shiftr x 5) 3) &&
               (Z.land (Z.shiftr x 5) 3 <=? 3)) &&
        implb (0xf7 <? x)
              ((5 <=? u32 (Z.land (Z.shiftr x 2) 7 - 1)) &&
               (u32 (Z.land (Z.shiftr x 2) 7 - 1) <=? 6))))
    ltac:(vm_compute; reflexivity) x Hx) as H.
  cbn beta in H. unbool H. tauto.
Qed.

(** ** The scanning loops *)

Section Scan.

Variable stop : Z -> bool.
Variable b : list Z.
Variables base count : Z.

Lemma scan_until_bounds (n : nat) :
  forall index, index <= count ->
  index <= scan_until stop b base count n index <= count.
Proof.
  induction n as [| n IH]; intros index Hi; cbn [scan_until].
  - lia.
  - destruct (Z.ltb_spec index count); [ | lia].
    destruct (stop (rd b (base + index))); [lia | ].
    specialize (IH (index + 1)). lia.
Qed.

(** With enough iterations left, the scan stops at the first byte that
    satisfies [stop], or at [count]. *)
Lemma scan_until_run (n : nat) :
  forall index, index <= count -> count - index <= Z.of_nat n ->
  let r := scan_until stop b base count n index in
  (forall j, index <= j < r -> stop (rd b (base + j)) = false) /\
  (r = count \/ (r < count /\ stop (rd b (base + r)) = true)).
Proof.
  induction n as [| n IH]; intros index Hi Hn; cbn [scan_until].
  - cbn zeta. split; [intros; lia | left; reflexivity].
  - destruct (Z.ltb_spec index count) as [Hlt | Hge].
    + destruct (stop (rd b (base + index))) eqn:Hs.
      * cbn zeta. split; [intros; lia | right; auto].
      * destruct (IH (index + 1)) as [Hrun Hend]; [lia | lia | ].
        cbn zeta in *. split; [ | exact Hend].
        intros j Hj. destruct (Z.eq_dec j index) as [-> | Hne];
          [exact Hs | apply Hrun; lia].
    + cbn zeta. split; [intros; lia | left; reflexivity].
Qed.

End Scan.

(** ** What [fetchUTF8] returns *)

Lemma fetch_cont_facts (b : list Z) (base : Z) (n : nat) :
  forall index value count errors,
  1 <= index -> index <= count ->
  lacks cp_errors.IrregularForm errors ->
  let '(_, count', errors') :=
    fetch_cont b base n index value count errors in
  1 <= count' <= count /\ lacks cp_errors.IrregularForm errors'.
Proof.
  induction n as [| n IH]; intros index value count errors H1 Hi He;
    cbn [fetch_cont].
  - split; [lia | exact He].
  - destruct (Z.ltb_spec index count) as [Hlt | Hge].
    + destruct (Z.eqb_spec (Z.land (rd b (base + index)) 192) 128);
        cbn [negb].
      * specialize (IH (index + 1)
                       (i32 (Z.lor (i32 (Z.shiftl value 6))
                                   (Z.land (rd b (base + index)) 63)))
                       count errors).
        destruct (fetch_cont b base n (index + 1) _ count errors)
          as [[value' count'] errors'].
        apply IH; [lia | lia | exact He].
      * split; [lia | ]. lacks_solve.
    + split; [lia | exact He].
Qed.

Lemma fetchUTF8_facts (b : list Z) (base size : Z) (coalesce : bool) :
  Forall is_u8 b -> 0 <= size ->
  let '(e, u, n) := fetchUTF8 b base size coalesce in
  lacks cp_errors.IrregularForm e /\
  0 <= n <= size /\
  (cp_errors.error e = true -> u = rd b base /\ 1 <= n).
Proof.
  intros Hb Hsize. unfold fetchUTF8.
  destruct (Z.ltb_spec size 1) as [Hs | Hs].
  { split; [lacks_const | ]. split; [lia | ]. intros Herr. vm_compute in Herr. discriminate. }
  pose proof (rd_byte b base Hb) as Hbyte.
  destruct (Z.leb_spec (u8 (rd b base + 2)) 193) as [Hone | Hmulti].
  - destruct (Z.ltb_spec 127 (rd b base)).
    + destruct coalesce.
      * pose proof (scan_until_bounds lead_or_ascii b base size
                      (Z.to_nat size) 1 ltac:(lia)).
        split; [lacks_solve | ]. split; [lia | ]. intros _. split; [reflexivity | lia].
      * split; [lacks_solve | ]. split; [lia | ]. intros _. split; [reflexivity | lia].
    + split; [lacks_const | ]. split; [lia | ]. intros Herr.
      vm_compute in Herr. discriminate.
  - destruct (lead_count (rd b base) Hbyte ltac:(lia)) as [Hc23 Hc56].
    set (byte := rd b base) in *.
    assert (exists count errors,
      (if byte <=? 239 then (Z.land (Z.shiftr byte 5) 3, 0)
       else if byte <=? 247 then (4, 0)
       else (u32 (Z.land (Z.shiftr byte 2) 7 - 1), cp_errors.ExtendedUTF8))
      = (count, errors) /\ 2 <= count <= 6 /\
      lacks cp_errors.IrregularForm errors) as (count & errors & -> & Hc & He).
    { destruct (Z.leb_spec byte 239).
      - eexists; eexists; split; [reflexivity | ]. split; [lia | lacks_const].
      - destruct (Z.leb_spec byte 247).
        + eexists; eexists; split; [reflexivity | ].
          split; [lia | lacks_const].
        + eexists; eexists; split; [reflexivity | ].
          split; [lia | lacks_const]. }
    assert (exists count' errors',
      (if size <? count
       then (size, Z.lor errors (Z.lor FailedNotDecodable
                                       cp_errors.ReadTruncated))
       else (count, errors)) = (count', errors') /\
      1 <= count' <= size /\ lacks cp_errors.IrregularForm errors')
      as (count' & errors' & -> & Hc' & He').
    { destruct (Z.ltb_spec size count).
      - eexists; eexists; split; [reflexivity | ]. split; [lia | lacks_solve].
      - eexists; eexists; split; [reflexivity | ]. split; [lia | exact He]. }
    pose proof (fetch_cont_facts b base (Z.to_nat count') 1
                  (Z.land byte (i32 (Z.shiftl 1 (7 - count')) - 1))
                  count' errors' ltac:(lia) ltac:(lia) He') as Hcont.
    destruct (fetch_cont b base (Z.to_nat count') 1 _ count' errors')
      as [[value count''] errors''].
    destruct Hcont as [Hc'' He''].
    destruct (cp_errors.no_error errors'') eqn:Hne.
    + apply no_error_lacks in Hne.
      split; [lacks_solve | ]. split; [lia | ].
      intros Herr. exfalso. unfold cp_errors.error in Herr.
      apply any_of_true in Herr. apply Herr. cbn zeta. lacks_solve.
    + split; [exact He'' | ]. split; [lia | ]. intros _. split; [reflexivity | lia].
Qed.

(** ** What [decodeUTF8] returns on a well-formed cursor *)

Lemma error_true_not_lacks (e : Z) :
  cp_errors.error e = true -> lacks cp_errors.ErrorsMask e -> False.
Proof.
  intros H Hl. apply error_lacks in Hl. congruence.
Qed.

Lemma decodeUTF8_facts (text : utf_text)
    (use_cesu use_java strict coalesce : bool) :
  well_formed text ->
  let '(e, u, n) := decodeUTF8 text use_cesu use_java strict coalesce in
  0 <= n <= length text - offset text /\
  (cp_errors.error e = true ->
   u = rd (bytes_of text) (offset text) /\ 1 <= n) /\
  (strict = true ->
   cp_errors.error e = true \/
   cp_errors.any_of e cp_errors.IrregularForm = true ->
   n = 1).
Proof.
  intros Hwf. unfold decodeUTF8.
  rewrite (well_formed_get_errors text Hwf).
  destruct (well_formed_limit text Hwf) as [-> Hlim].
  destruct Hwf as (b & Hb & Hlen & Hmax & Hbytes & Hoff).
  unfold bytes_of. rewrite Hb.
  change (cp_errors.no_error 0) with true. cbv iota.
  set (limit := length text - offset text) in *.
  set (base := offset text) in *.
  destruct (Z.ltb_spec limit 1) as [Hempty | Hroom].
  { unfold fetchUTF8. destruct (Z.ltb_spec limit 1); [ | lia].
    cbn. destruct use_java; cbn;
      (split; [lia | split; [intros Herr; discriminate Herr
                            | intros _ [Herr | Herr]; discriminate Herr]]). }
  pose proof (fetchUTF8_facts b base limit (coalesce && negb strict)
                Hbytes Hlim) as Hf.
  destruct (fetchUTF8 b base limit (coalesce && negb strict))
    as [[e1 u1] n1].
  destruct Hf as (Hirr1 & Hn1 & Herr1).
  rewrite Z.lor_0_l.
  destruct (cp_errors.no_error e1) eqn:Hne1.
  - apply no_error_lacks in Hne1. clear Herr1.
    pose proof (fetchUTF8_facts b (base + n1) (u32 (limit - n1)) false
                  Hbytes ltac:(apply u32_range)) as Hf2.
    rewrite (u32_small (limit - n1)) in * by lia.
    destruct (fetchUTF8 b (base + n1) (limit - n1) false) as [[e2 u2] n2].
    destruct Hf2 as (Hirr2 & Hn2 & _).
    rewrite (u32_small (n1 + n2)) by lia.
    destruct (cp_errors.no_error e2) eqn:Hne2;
      [apply no_error_lacks in Hne2 | ];
      repeat match goal with
             | |- context [if ?c then _ else _] =>
                 match c with
                 | strict => fail 1
                 | _ => destruct c eqn:?
                 end
             end;
      destruct strict;
      (split; [lia | split;
        [ intros Herr; first
            [ split; [reflexivity | lia]
            | exfalso; apply (error_true_not_lacks _ Herr); lacks_solve ]
        | intros Hs [Herr | Hirr]; first
            [ reflexivity
            | discriminate Hs
            | exfalso; apply (error_true_not_lacks _ Herr); lacks_solve
            | exfalso; apply any_of_true in Hirr; apply Hirr; lacks_solve ] ]]).
  - assert (cp_errors.error e1 = true) as He1.
    { unfold cp_errors.no_error in Hne1. apply negb_false_iff. exact Hne1. }
    destruct (Herr1 He1) as [Hu1 Hpos].
    destruct strict; cbn [andb].
    + destruct (Z.ltb_spec 1 n1);
        (split; [lia | split; [intros _; split; [exact Hu1 | lia]
                              | intros _ _; lia]]).
    + split; [lia | split; [intros _; split; [exact Hu1 | lia]
                           | intros Hs; discriminate Hs]].
Qed.

(** ** What the other decoders return on a well-formed cursor *)

Lemma decodeBYTE_facts (text : utf_text) (use_ascii coalesce : bool) :
  well_formed text ->
  let '(e, u, n) := decodeBYTE text use_ascii coalesce in
  0 <= n <= length text - offset text /\
  (cp_errors.error e = true ->
   u = rd (bytes_of text) (offset text) /\ 1 <= n).
Proof.
  intros Hwf. unfold decodeBYTE.
  rewrite (well_formed_get_errors text Hwf).
  destruct (well_formed_limit text Hwf) as [-> Hlim].
  change (cp_errors.no_error 0) with true. cbv iota.
  set (limit := length text - offset text) in *.
  destruct (Z.ltb_spec limit 1) as [Hempty | Hroom].
  { unfold over_run. destruct (Z.eqb_spec limit 0); [ | lia].
    cbn. split; [lia | intros Herr; discriminate Herr]. }
  pose proof (scan_until_bounds (fun byte => negb (Z.land byte 128 =? 128))
                (bytes_of text) (offset text) limit (Z.to_nat limit) 1
                ltac:(lia)) as Hscan.
  repeat match goal with
         | |- context [if ?c then _ else _] => destruct c eqn:?
         end;
    (split; [lia | intros Herr; first
       [ split; [reflexivity | lia]
       | vm_compute in Herr; discriminate Herr ]]).
Qed.

Lemma decodeCP1252_facts (text : utf_text) (strict coalesce : bool) :
  well_formed text ->
  let '(e, u, n) := decodeCP1252 text strict coalesce in
  0 <= n <= length text - offset text /\
  (cp_errors.error e = true -> u = 0 /\ 1 <= n).
Proof.
  intros Hwf. unfold decodeCP1252.
  rewrite (well_formed_get_errors text Hwf).
  destruct (well_formed_limit text Hwf) as [-> Hlim].
  change (cp_errors.no_error 0) with true. cbv iota.
  set (limit := length text - offset text) in *.
  destruct (Z.ltb_spec limit 1) as [Hempty | Hroom].
  { unfold over_run. destruct (Z.eqb_spec limit 0); [ | lia].
    cbn. split; [lia | intros Herr; discriminate Herr]. }
  pose proof (scan_until_bounds
                (fun cp1252 =>
                   fst (cp1252ToUnicode cp1252 (strictness_of strict)))
                (bytes_of text) (offset text) limit (Z.to_nat limit) 1
                ltac:(lia)) as Hscan.
  assert (forall x, fst (cp1252ToUnicode x (strictness_of strict)) = false ->
                    snd (cp1252ToUnicode x (strictness_of strict)) = 0)
    as Hzero.
  { intros x. unfold cp1252ToUnicode.
    destruct strict; cbn [strictness_of]; [ | discriminate].
    destruct (isCP1252UndefinedC1 _); [reflexivity | discriminate]. }
  specialize (Hzero (rd (bytes_of text) (offset text))).
  destruct (cp1252ToUnicode (rd (bytes_of text) (offset text))
                            (strictness_of strict)) as [ok unicode].
  cbn [fst snd] in Hzero.
  destruct ok; cbn [negb].
  - destruct (Z.eqb_spec (u32 unicode) 0);
      (split; [lia | intros Herr; vm_compute in Herr; discriminate Herr]).
  - rewrite (Hzero eq_refl).
    destruct coalesce; (split; [lia | intros _; split; [reflexivity | lia]]).
Qed.

Lemma land_1_mod (x : Z) : Z.land x 1 = x mod 2.
Proof. apply (Z.land_ones x 1). lia. Qed.

Lemma land_3_mod (x : Z) : Z.land x 3 = x mod 4.
Proof. apply (Z.land_ones x 2). lia. Qed.

Lemma decodeUTF16_facts (text : utf_text) (le use_ucs2 : bool) :
  well_formed text ->
  let '(e, u, n) := decodeUTF16 text le use_ucs2 in
  0 <= n <= length text - offset text /\
  (cp_errors.error e = true -> u = 0 /\ n = 0).
Proof.
  intros Hwf. unfold decodeUTF16.
  destruct (get_errors_aligned_cases text 1 Hwf) as [(-> & Ho & Hl) | ->].
  2: { split; [ | auto]. destruct (well_formed_limit text Hwf). lia. }
  destruct (well_formed_limit text Hwf) as [-> Hlim].
  change (cp_errors.no_error 0) with true. cbv iota.
  rewrite land_1_mod in Ho, Hl.
  set (limit := length text - offset text) in *.
  destruct (Z.ltb_spec limit 2) as [Hempty | Hroom].
  { unfold over_run. destruct (Z.eqb_spec limit 0); [ | lia].
    cbn. split; [lia | intros Herr; discriminate Herr]. }
  assert (limit < 4 \/ 4 <= limit) as Hfour by lia.
  repeat match goal with
         | |- context [if ?c then _ else _] => destruct c eqn:?
         end;
    try match goal with
        | H : (limit <? 4) = false |- _ => apply Z.ltb_ge in H
        end;
    (split; [lia | intros Herr; vm_compute in Herr; discriminate Herr]).
Qed.

Lemma decodeUTF32_facts (text : utf_text) (le use_cesu use_ucs4 : bool) :
  well_formed text ->
  let '(e, u, n) := decodeUTF32 text le use_cesu use_ucs4 in
  0 <= n <= length text - offset text /\
  (cp_errors.error e = true -> u = 0 /\ n = 0).
Proof.
  intros Hwf. unfold decodeUTF32.
  destruct (get_errors_aligned_cases text 3 Hwf) as [(-> & Ho & Hl) | ->].
  2: { split; [ | auto]. destruct (well_formed_limit text Hwf). lia. }
  destruct (well_formed_limit text Hwf) as [-> Hlim].
  change (cp_errors.no_error 0) with true. cbv iota.
  rewrite land_3_mod in Ho, Hl.
  set (limit := length text - offset text) in *.
  destruct (Z.ltb_spec limit 4) as [Hempty | Hroom].
  { unfold over_run. destruct (Z.eqb_spec limit 0); [ | lia].
    cbn. split; [lia | intros Herr; discriminate Herr]. }
  repeat match goal with
         | |- context [if ?c then _ else _] => destruct c eqn:?
         end;
    try match goal with
        | H : (limit <? 8) = false |- _ => apply Z.ltb_ge in H
        end;
    (split; [lia | intros Herr; vm_compute in Herr; discriminate Herr]).
Qed.

(** ** Strict decoding (C7) *)

(** C7: on a well-formed cursor, a strict [decodeUTF8] whose diagnostic holds
    a hard error or [IrregularForm] leaves 1 in [bytes]. *)
Theorem C7_strict_decode_consumes_one_byte (text : utf_text)
    (use_cesu use_java coalesce : bool) :
  well_formed text ->
  let r := decodeUTF8 text use_cesu use_java true coalesce in
  cp_errors.error (fst (fst r)) = true \/
  cp_errors.any_of (fst (fst r)) cp_errors.IrregularForm = true ->
  snd r = 1.
Proof.
  intros Hwf r Hbad.
  pose proof (decodeUTF8_facts text use_cesu use_java true coalesce Hwf) as H.
  fold r in H. destruct r as [[e u] n]. cbn [fst snd] in *.
  destruct H as (_ & _ & Hstrict).
  apply Hstrict; [reflexivity | exact Hbad].
Qed.

Lemma cursor_well_formed (b : list Z) (o : Z) :
  Forall is_u8 b -> Z.of_nat (List.length b) < 4294967296 ->
  0 <= o <= Z.of_nat (List.length b) ->
  well_formed (cursor b o).
Proof.
  intros Hb Hmax Ho. exists b. cbn. auto.
Qed.

Ltac bytes_ok :=
  repeat (apply Forall_cons; [unfold is_u8; lia | ]); apply Forall_nil.

Ltac cursor_ok :=
  apply cursor_well_formed; [bytes_ok | cbn; lia | cbn; lia].

Lemma C7_strict_decode_consumes_one_byte_witness :
  well_formed (cursor [0xE0; 0xA0; 0x41] 0) /\
  cp_errors.error
    (fst (fst (decodeUTF8 (cursor [0xE0; 0xA0; 0x41] 0)
                          false false true true))) = true /\
  snd (decodeUTF8 (cursor [0xE0; 0xA0; 0x41] 0) false false true true) = 1.
Proof.
  assert (well_formed (cursor [0xE0; 0xA0; 0x41] 0)) as Hwf by cursor_ok.
  split; [exact Hwf | ]. split; [reflexivity | ].
  apply (C7_strict_decode_consumes_one_byte
           (cursor [0xE0; 0xA0; 0x41] 0) false false true Hwf).
  left. reflexivity.
Defined.

(** ** The scalar of a failed decode (C3) *)




(** ** [read] (C10) *)

Lemma get_bytes_bound (T : UTF_SUB_TYPE) (text : utf_text) (e u n : Z) :
  well_formed text ->
  IUTFTK.get T text = (e, u, n) ->
  0 <= n <= length text - offset text.
Proof.
  intros Hwf Hget.
  destruct T; cbn [IUTFTK.get] in *;
    match type of Hget with
    | decodeUTF8 ?t ?c ?j ?s ?k = _ =>
        pose proof (decodeUTF8_facts t c j s k Hwf) as H
    | decodeUTF16 ?t ?l ?c = _ =>
        pose proof (decodeUTF16_facts t l c Hwf) as H
    | decodeUTF32 ?t ?l ?c ?k = _ =>
        pose proof (decodeUTF32_facts t l c k Hwf) as H
    | decodeBYTE ?t ?a ?c = _ =>
        pose proof (decodeBYTE_facts t a c Hwf) as H
    | decodeCP1252 ?t ?s ?c = _ =>
        pose proof (decodeCP1252_facts t s c Hwf) as H
    end;
    rewrite Hget in H; tauto.
Qed.

(** A byte that cannot start a UTF8 sequence takes the first branch of
    [fetchUTF8]. *)
Lemma not_lead_byte (x : Z) :
  is_u8 x -> lead_or_ascii x = false -> u8 (x + 2) <= 0xc1 /\ 0x7f < x.
Proof.
  intros Hx Hl.
  pose proof (byte_cases
    (fun x => implb (negb (lead_or_ascii x))
                    ((u8 (x + 2) <=? 0xc1) && (0x7f <? x)))
    ltac:(vm_compute; reflexivity) x Hx) as H.
  cbn beta in H. rewrite Hl in H. cbn [negb implb] in H. unbool H. exact H.
Qed.

(** A coalescing UTF8 decode at a byte that cannot start a sequence fails
    and consumes the whole run of such bytes. *)
Lemma decodeUTF8_invalid_run (text : utf_text) (use_cesu use_java : bool) :
  well_formed text -> offset text < length text ->
  lead_or_ascii (rd (bytes_of text) (offset text)) = false ->
  let '(e, u, n) := decodeUTF8 text use_cesu use_java false true in
  cp_errors.error e = true /\ 1 <= n /\
  (forall j, 0 <= j < n ->
     lead_or_ascii (rd (bytes_of text) (offset text + j)) = false) /\
  (offset text + n = length text \/
   lead_or_ascii (rd (bytes_of text) (offset text + n)) = true).
Proof.
  intros Hwf Hroom Hbad. unfold decodeUTF8.
  rewrite (well_formed_get_errors text Hwf).
  destruct (well_formed_limit text Hwf) as [-> Hlim].
  destruct Hwf as (b & Hb & Hlen & Hmax & Hbytes & Hoff).
  unfold bytes_of in *. rewrite Hb in *.
  change (cp_errors.no_error 0) with true. cbv iota.
  set (limit := length text - offset text) in *.
  set (base := offset text) in *.
  destruct (not_lead_byte (rd b base) (rd_byte b base Hbytes) Hbad)
    as [Hone Hhigh].
  unfold fetchUTF8.
  destruct (Z.ltb_spec limit 1); [lia | ].
  destruct (Z.leb_spec (u8 (rd b base + 2)) 193); [ | lia].
  destruct (Z.ltb_spec 127 (rd b base)); [ | lia].
  cbn [andb negb].
  pose proof (scan_until_bounds lead_or_ascii b base limit
                (Z.to_nat limit) 1 ltac:(lia)) as Hbound.
  pose proof (scan_until_run lead_or_ascii b base limit
                (Z.to_nat limit) 1 ltac:(lia) ltac:(lia)) as Hrun.
  cbn zeta in Hrun.
  set (n := scan_until lead_or_ascii b base limit (Z.to_nat limit) 1) in *.
  destruct Hrun as [Hrun Hend].
  assert (cp_errors.no_error
            (Z.lor 0 (Z.lor FailedNotDecodable
                        (if 254 <=? rd b base then cp_errors.DisallowedByte
                         else cp_errors.UnexpectedByte))) = false) as Hne.
  { destruct (254 <=? rd b base); reflexivity. }
  rewrite Hne. cbn [andb].
  split.
  { destruct (254 <=? rd b base); reflexivity. }
  split; [lia | ]. split.
  - intros j Hj. destruct (Z.eq_dec j 0) as [-> | Hne0].
    + rewrite Z.add_0_r. exact Hbad.
    + apply Hrun. lia.
  - destruct Hend as [Hend | [_ Hend]]; [left; lia | right; exact Hend].
Qed.

(** C10: on a well-formed cursor, [read] returns the diagnostic and the
    scalar of [get] and advances the offset by exactly the [bytes] of [get],
    staying inside the buffer, whether or not the diagnostic holds a hard
    error; and where a coalescing UTF8 handler reads at a byte that cannot
    start a sequence, the read fails and the offset moves past the whole run
    of such bytes. *)
Theorem C10_read_advances_by_decoded_bytes (T : UTF_SUB_TYPE)
    (text : utf_text) (e u n : Z) :
  well_formed text ->
  IUTFTK.get T text = (e, u, n) ->
  IUTFTK.read T text = (e, u, set_offset text (offset text + n)) /\
  offset text <= offset text + n <= length text /\
  (coalesces_utf8 T = true ->
   offset text < length text ->
   lead_or_ascii (rd (bytes_of text) (offset text)) = false ->
   cp_errors.error e = true /\
   offset text < offset text + n /\
   (forall j, 0 <= j < n ->
      lead_or_ascii (rd (bytes_of text) (offset text + j)) = false) /\
   (offset text + n = length text \/
    lead_or_ascii (rd (bytes_of text) (offset text + n)) = true)).
Proof.
  intros Hwf Hget.
  pose proof (get_bytes_bound T text e u n Hwf Hget) as Hn.
  assert (0 <= offset text /\ length text < 4294967296) as [Ho Hmax].
  { destruct Hwf as (b & _ & _ & ? & _ & ?). lia. }
  split; [ | split; [lia | ]].
  - unfold IUTFTK.read. rewrite Hget.
    rewrite (u32_small (offset text + n)) by lia. reflexivity.
  - intros Hco Hroom Hbad.
    destruct T; try discriminate Hco; cbn [IUTFTK.get] in Hget;
      match type of Hget with
      | decodeUTF8 ?t ?c ?j _ _ = _ =>
          pose proof (decodeUTF8_invalid_run t c j Hwf Hroom Hbad) as H
      end;
      rewrite Hget in H; destruct H as (H1 & H2 & H3 & H4);
      repeat split; auto; lia.
Qed.

Lemma C10_read_advances_by_decoded_bytes_witness :
  well_formed (cursor [0x80; 0xBF; 0xFE; 0x41] 0) /\
  IUTFTK.get UTF8 (cursor [0x80; 0xBF; 0xFE; 0x41] 0) =
    (2151677968, 0x80, 3) /\
  IUTFTK.read UTF8 (cursor [0x80; 0xBF; 0xFE; 0x41] 0) =
    (2151677968, 0x80, cursor [0x80; 0xBF; 0xFE; 0x41] 3) /\
  cp_errors.error 2151677968 = true.
Proof.
  assert (well_formed (cursor [0x80; 0xBF; 0xFE; 0x41] 0)) as Hwf
    by cursor_ok.
  split; [exact Hwf | ]. split; [reflexivity | ].
  destruct (C10_read_advances_by_decoded_bytes UTF8
              (cursor [0x80; 0xBF; 0xFE; 0x41] 0) 2151677968 0x80 3
              Hwf eq_refl) as (Hread & _ & Hrun).
  split; [exact Hread | ].
  apply Hrun; [reflexivity | cbn; lia | reflexivity].
Defined.

(** ** Encoders and lengths (C2) *)

(** Decide the comparisons of the goal by [lia]. *)
Ltac zdecide :=
  repeat match goal with
         | |- context [?a <=? ?b] =>
             first [ rewrite (proj2 (Z.leb_le a b)) by lia
                   | rewrite (proj2 (Z.leb_gt a b)) by lia ]
         | |- context [?a <? ?b] =>
             first [ rewrite (proj2 (Z.ltb_lt a b)) by lia
                   | rewrite (proj2 (Z.ltb_ge a b)) by lia ]
         | |- context [?a =? ?b] =>
             first [ rewrite (proj2 (Z.eqb_eq a b)) by lia
                   | rewrite (proj2 (Z.eqb_neq a b)) by lia ]
         end.

(** Evaluate the tests of a closed diagnostic. *)
Ltac eval_masks :=
  repeat match goal with
         | |- context [cp_errors.no_error ?e] =>
             let v := eval vm_compute in (cp_errors.no_error e) in
             change (cp_errors.no_error e) with v
         | |- context [cp_errors.any_of ?e ?m] =>
             let v := eval vm_compute in (cp_errors.any_of e m) in
             change (cp_errors.any_of e m) with v
         end.

(** The ranges of a scalar that the encoders tell apart. *)
Lemma scalar_ranges (s : Z) :
  is_i32 s ->
  s < 0 \/ s = 0 \/ 1 <= s <= 0x7f \/ 0x80 <= s <= 0xff \/
  0x100 <= s <= 0x7ff \/
  0x800 <= s <= 0xd7ff \/ 0xd800 <= s <= 0xfdcf \/ 0xfdd0 <= s <= 0xffff \/
  0x10000 <= s <= 0x10ffff \/ 0x110000 <= s <= 0x1fffff \/
  0x200000 <= s <= 0x3ffffff \/ 0x4000000 <= s.
Proof. unfold is_i32. lia. Qed.

Ltac split_ranges s H :=
  unfold is_i32 in H;
  destruct (scalar_ranges s H) as
    [R | [R | [R | [R | [R | [R | [R | [R | [R | [R | [R | R]]]]]]]]]]];
  [ rewrite ?(u32_neg s) by lia
  | rewrite ?(u32_small s) by lia ..].

Ltac case_tests :=
  repeat match goal with
         | |- context [nonchar_test ?s] => destruct (nonchar_test s)
         | |- context [surrogate_test ?s] => destruct (surrogate_test s)
         | |- context [low_bit_test ?s] => destruct (low_bit_test s)
         | |- context [if ?c then _ else _] => is_var c; destruct c
         end.

Ltac finish_encode :=
  zdecide; rewrite ?andb_false_r, ?andb_true_r; cbn [negb andb orb];
  case_tests; cbn [negb andb orb];
  eval_masks; cbv iota;
  unfold put; cbn [List.length Z.of_nat Pos.of_succ_nat Pos.succ];
  try match goal with
      | |- context [?a <? ?b] => destruct (Z.ltb_spec a b)
      end;
  cbv iota;
  (split;
   [ intros Hlen Hroom;
     first [ exfalso; lia
           | exfalso; apply Hlen; reflexivity
           | split; reflexivity ]
   | intros Hne;
     first [ reflexivity | discriminate Hne
           | vm_compute in Hne; discriminate Hne ] ]).

Lemma encodeUTF8_consistent (text : utf_text) (s : Z)
    (use_cesu use_java : bool) :
  is_i32 s -> well_formed text ->
  let '(e, n, _) := encodeUTF8 text s use_cesu use_java in
  (lenUTF8 s use_cesu use_java <> 0 ->
   lenUTF8 s use_cesu use_java <= length text - offset text ->
   n = lenUTF8 s use_cesu use_java /\ cp_errors.no_error e = true) /\
  (cp_errors.any_of e cp_errors.NotEncodable = true ->
   lenUTF8 s use_cesu use_java = 0).
Proof.
  intros Hs Hwf. unfold encodeUTF8, lenUTF8.
  rewrite (well_formed_get_errors text Hwf).
  destruct (well_formed_limit text Hwf) as [-> Hlim].
  set (limit := length text - offset text) in *.
  split_ranges s Hs; finish_encode.
Qed.

Lemma aligned_get_errors_1 (text : utf_text) :
  well_formed text -> offset text mod 2 = 0 -> length text mod 2 = 0 ->
  get_errors_aligned text 1 = 0.
Proof.
  intros Hwf Ho Hl. unfold get_errors_aligned.
  rewrite (well_formed_get_errors text Hwf), !land_1_mod, Ho, Hl.
  reflexivity.
Qed.

Lemma aligned_get_errors_3 (text : utf_text) :
  well_formed text -> offset text mod 4 = 0 -> length text mod 4 = 0 ->
  get_errors_aligned text 3 = 0.
Proof.
  intros Hwf Ho Hl. unfold get_errors_aligned.
  rewrite (well_formed_get_errors text Hwf), !land_3_mod, Ho, Hl.
  reflexivity.
Qed.

Lemma encodeUTF16_consistent (text : utf_text) (s : Z) (le use_ucs2 : bool) :
  is_i32 s -> well_formed text ->
  offset text mod 2 = 0 -> length text mod 2 = 0 ->
  let '(e, n, _) := encodeUTF16 text s le use_ucs2 in
  (lenUTF16 s use_ucs2 <> 0 ->
   lenUTF16 s use_ucs2 <= length text - offset text ->
   n = lenUTF16 s use_ucs2 /\ cp_errors.no_error e = true) /\
  (cp_errors.any_of e cp_errors.NotEncodable = true ->
   lenUTF16 s use_ucs2 = 0).
Proof.
  intros Hs Hwf Ho Hl. unfold encodeUTF16, lenUTF16.
  rewrite (aligned_get_errors_1 text Hwf Ho Hl).
  destruct (well_formed_limit text Hwf) as [-> Hlim].
  set (limit := length text - offset text) in *.
  split_ranges s Hs; finish_encode.
Qed.

Lemma encodeUTF32_consistent (text : utf_text) (s : Z)
    (le use_cesu use_ucs4 : bool) :
  is_i32 s -> well_formed text ->
  offset text mod 4 = 0 -> length text mod 4 = 0 ->
  let '(e, n, _) := encodeUTF32 text s le use_cesu use_ucs4 in
  (lenUTF32 s use_cesu use_ucs4 <> 0 ->
   lenUTF32 s use_cesu use_ucs4 <= length text - offset text ->
   n = lenUTF32 s use_cesu use_ucs4 /\ cp_errors.no_error e = true) /\
  (cp_errors.any_of e cp_errors.NotEncodable = true ->
   lenUTF32 s use_cesu use_ucs4 = 0).
Proof.
  intros Hs Hwf Ho Hl. unfold encodeUTF32, lenUTF32.
  rewrite (aligned_get_errors_3 text Hwf Ho Hl).
  destruct (well_formed_limit text Hwf) as [-> Hlim].
  set (limit := length text - offset text) in *.
  destruct use_ucs4; split_ranges s Hs; finish_encode.
Qed.

Lemma land_255_mod (x : Z) : Z.land x 255 = x mod 256.
Proof. apply (Z.land_ones x 8). lia. Qed.

Lemma land_127_mod (x : Z) : Z.land x 127 = x mod 128.
Proof. apply (Z.land_ones x 7). lia. Qed.

(** The [len] of the byte handlers is 1 on the scalars below the mask. *)
Lemma lenMasked_spec (s : Z) :
  is_i32 s ->
  lenMasked s 0xff = (if (0 <=? s) && (s <=? 0xff) then 1 else 0) /\
  lenMasked s 0x7f = (if (0 <=? s) && (s <=? 0x7f) then 1 else 0).
Proof.
  unfold is_i32, lenMasked. intros Hs.
  rewrite land_255_mod, land_127_mod.
  assert (0 <= u32 s mod 256 < 256) by (apply Z.mod_pos_bound; lia).
  assert (0 <= u32 s mod 128 < 128) by (apply Z.mod_pos_bound; lia).
  rewrite !i32_small by lia.
  destruct (Z.ltb_spec s 0).
  - rewrite (u32_neg s) in * by lia.
    destruct (Z.leb_spec 0 s); [lia | ]. cbn [andb].
    destruct (Z.eqb_spec ((s + 4294967296) mod 256) s); [lia | ].
    destruct (Z.eqb_spec ((s + 4294967296) mod 128) s); [lia | ].
    split; reflexivity.
  - rewrite (u32_small s) in * by lia.
    destruct (Z.leb_spec 0 s); [ | lia]. cbn [andb].
    split.
    + destruct (Z.leb_spec s 255); destruct (Z.eqb_spec (s mod 256) s);
        try reflexivity; lia.
    + destruct (Z.leb_spec s 127); destruct (Z.eqb_spec (s mod 128) s);
        try reflexivity; lia.
Qed.

Lemma encodeBYTE_consistent (text : utf_text) (s : Z) (use_ascii : bool) :
  is_i32 s -> well_formed text ->
  let len := lenMasked s (if use_ascii then 0x7f else 0xff) in
  let '(e, n, _) := encodeBYTE text s use_ascii in
  (len <> 0 -> len <= length text - offset text ->
   n = len /\ cp_errors.no_error e = true) /\
  (cp_errors.any_of e cp_errors.NotEncodable = true -> len = 0).
Proof.
  intros Hs Hwf. destruct (lenMasked_spec s Hs) as [Hff H7f].
  cbv zeta.
  replace (lenMasked s (if use_ascii then 0x7f else 0xff))
    with (if use_ascii
          then (if (0 <=? s) && (s <=? 0x7f) then 1 else 0)
          else (if (0 <=? s) && (s <=? 0xff) then 1 else 0))
    by (destruct use_ascii; congruence).
  clear Hff H7f. unfold encodeBYTE.
  rewrite (well_formed_get_errors text Hwf).
  destruct (well_formed_limit text Hwf) as [-> Hlim].
  set (limit := length text - offset text) in *.
  destruct use_ascii; split_ranges s Hs; finish_encode.
Qed.

Lemma encodeCP1252_consistent (text : utf_text) (s : Z) (strict : bool) :
  is_i32 s -> well_formed text ->
  let '(e, n, _) := encodeCP1252 text s strict in
  (lenMasked s 0x7f <> 0 -> lenMasked s 0x7f <= length text - offset text ->
   n = lenMasked s 0x7f /\ cp_errors.no_error e = true) /\
  (cp_errors.any_of e cp_errors.NotEncodable = true -> lenMasked s 0x7f = 0).
Proof.
  intros Hs Hwf. destruct (lenMasked_spec s Hs) as [_ ->].
  destruct (Z.leb_spec 0 s) as [Hpos | Hneg]; cbn [andb].
  2: { destruct (encodeCP1252 text s strict) as [[e n] t].
       split; [intros Hlen; exfalso; apply Hlen; reflexivity | reflexivity]. }
  destruct (Z.leb_spec s 0x7f) as [Hlow | Hhigh].
  2: { destruct (encodeCP1252 text s strict) as [[e n] t].
       split; [intros Hlen; exfalso; apply Hlen; reflexivity | reflexivity]. }
  unfold encodeCP1252, unicodeToCP1252.
  rewrite (well_formed_get_errors text Hwf).
  destruct (well_formed_limit text Hwf) as [-> Hlim].
  set (limit := length text - offset text) in *.
  rewrite ?(u32_small s) by lia.
  destruct (Z.eq_dec s 0); finish_encode.
Qed.

(** C2, counterexample: with UCS4 disabled [lenUTF32] is 0 on U+110000, yet
    the UTF-32 encoder stores four bytes and does not set [NotEncodable]. *)
Lemma C2_counterexample_utf32_extended :
  IUTFTK.len UTF32be 0x110000 = 0 /\
  IUTFTK.set UTF32be (cursor [0; 0; 0; 0] 0) 0x110000 =
    (Z.lor cp_errors.ExtendedUCS4 cp_errors.IrregularForm, 4,
     cursor [0x00; 0x11; 0x00; 0x00] 0) /\
  cp_errors.any_of (Z.lor cp_errors.ExtendedUCS4 cp_errors.IrregularForm)
                   cp_errors.NotEncodable = false.
Proof. repeat split. Qed.

(** C2, amended: on a well-formed, aligned cursor, the encoder of every
    handler leaves [len(s)] in [bytes], with no hard error, whenever
    [len(s)] is not zero and the cursor has that much room; and where the
    diagnostic of the encoder has [NotEncodable], [len(s)] is zero. *)
Theorem C2_encoder_length_consistency (T : UTF_SUB_TYPE) (s : Z)
    (text : utf_text) :
  is_i32 s -> well_formed text -> aligned T text ->
  let '(e, n, _) := IUTFTK.set T text s in
  (IUTFTK.len T s <> 0 ->
   IUTFTK.len T s <= length text - offset text ->
   n = IUTFTK.len T s /\ cp_errors.no_error e = true) /\
  (cp_errors.any_of e cp_errors.NotEncodable = true -> IUTFTK.len T s = 0).
Proof.
  intros Hs Hwf [Ho Hl].
  destruct T; cbn [IUTFTK.set IUTFTK.len IUTFTK.unitSize] in *;
    first
      [ apply (encodeUTF8_consistent text s _ _ Hs Hwf)
      | apply (encodeUTF16_consistent text s _ _ Hs Hwf Ho Hl)
      | apply (encodeUTF32_consistent text s _ _ _ Hs Hwf Ho Hl)
      | apply (encodeBYTE_consistent text s true Hs Hwf)
      | apply (encodeBYTE_consistent text s false Hs Hwf)
      | apply (encodeCP1252_consistent text s _ Hs Hwf) ].
Qed.

Lemma aligned_cursor_0 (T : UTF_SUB_TYPE) (b : list Z) :
  Z.of_nat (List.length b) mod IUTFTK.unitSize T = 0 ->
  aligned T (cursor b 0).
Proof. intros H. split; [destruct T; reflexivity | exact H]. Qed.

Lemma C2_encoder_length_consistency_witness :
  is_i32 0x20AC /\ well_formed (cursor [0; 0; 0; 0] 0) /\
  aligned UTF8 (cursor [0; 0; 0; 0] 0) /\
  IUTFTK.len UTF8 0x20AC = 3 /\
  snd (fst (IUTFTK.set UTF8 (cursor [0; 0; 0; 0] 0) 0x20AC)) = 3.
Proof.
  assert (is_i32 0x20AC) as Hs by (unfold is_i32; lia).
  assert (well_formed (cursor [0; 0; 0; 0] 0)) as Hwf by cursor_ok.
  assert (aligned UTF8 (cursor [0; 0; 0; 0] 0)) as Hal
    by (apply aligned_cursor_0; reflexivity).
  split; [exact Hs | ]. split; [exact Hwf | ]. split; [exact Hal | ].
  split; [reflexivity | ].
  pose proof (C2_encoder_length_consistency UTF8 0x20AC
                (cursor [0; 0; 0; 0] 0) Hs Hwf Hal) as H.
  destruct (IUTFTK.set UTF8 (cursor [0; 0; 0; 0] 0) 0x20AC) as [[e n] t].
  destruct H as [H _]. cbn [fst snd].
  apply H; [discriminate | cbn; lia].
Defined.

(** ** Stores and reads of a buffer *)

Lemma wr_length (b : list Z) (i v : Z) :
  List.length (wr b i v) = List.length b.
Proof.
  unfold wr.
  destruct (Z.leb_spec 0 i); destruct (Z.ltb_spec i (Z.of_nat (List.length b)));
    cbn [andb]; try reflexivity.
  rewrite length_app. cbn [List.length].
  rewrite firstn_length_le by lia. rewrite length_skipn. lia.
Qed.

Lemma rd_wr_same (b : list Z) (i v : Z) :
  0 <= i < Z.of_nat (List.length b) -> rd (wr b i v) i = v.
Proof.
  intros Hi. unfold rd, wr.
  destruct (Z.leb_spec 0 i); [ | lia].
  destruct (Z.ltb_spec i (Z.of_nat (List.length b))); [ | lia].
  cbn [andb].
  rewrite app_nth2; rewrite firstn_length_le by lia; [ | lia].
  rewrite Nat.sub_diag. reflexivity.
Qed.

Lemma rd_wr_other (b : list Z) (i j v : Z) :
  0 <= j -> i <> j -> rd (wr b i v) j = rd b j.
Proof.
  intros Hj Hne. unfold rd, wr.
  destruct (Z.leb_spec 0 i); [ | reflexivity].
  destruct (Z.ltb_spec i (Z.of_nat (List.length b))); [ | reflexivity].
  cbn [andb].
  destruct (Z.ltb_spec j i) as [Hlt | Hge].
  - rewrite app_nth1 by (rewrite firstn_length_le; lia).
    rewrite nth_firstn.
    destruct (Nat.ltb_spec (Z.to_nat j) (Z.to_nat i)); [reflexivity | lia].
  - rewrite app_nth2; rewrite firstn_length_le by lia; [ | lia].
    replace (Z.to_nat j - Z.to_nat i)%nat
      with (S (Z.to_nat j - S (Z.to_nat i)))%nat by lia.
    cbn [nth]. rewrite nth_skipn. f_equal. lia.
Qed.

Lemma Forall_firstn_bytes (n : nat) :
  forall b : list Z, Forall is_u8 b -> Forall is_u8 (firstn n b).
Proof.
  induction n as [| n IH]; intros b Hb; cbn [firstn].
  - apply Forall_nil.
  - destruct b as [| x b]; [apply Forall_nil | ].
    inversion Hb; subst. apply Forall_cons; auto.
Qed.

Lemma Forall_skipn_bytes (n : nat) :
  forall b : list Z, Forall is_u8 b -> Forall is_u8 (skipn n b).
Proof.
  induction n as [| n IH]; intros b Hb; cbn [skipn].
  - exact Hb.
  - destruct b as [| x b]; [apply Forall_nil | ].
    inversion Hb; subst. auto.
Qed.

Lemma wr_bytes (b : list Z) (i v : Z) :
  Forall is_u8 b -> is_u8 v -> Forall is_u8 (wr b i v).
Proof.
  intros Hb Hv. unfold wr.
  destruct ((0 <=? i) && (i <? Z.of_nat (List.length b))); [ | exact Hb].
  apply Forall_app. split.
  - apply Forall_firstn_bytes. exact Hb.
  - apply Forall_cons; [exact Hv | ]. apply Forall_skipn_bytes. exact Hb.
Qed.

Lemma store_length (vs : list Z) :
  forall b i, List.length (store b i vs) = List.length b.
Proof.
  induction vs as [| v vs IH]; intros b i; cbn [store].
  - reflexivity.
  - rewrite IH. apply wr_length.
Qed.

Lemma store_bytes (vs : list Z) :
  forall b i, Forall is_u8 b -> Forall is_u8 vs ->
  Forall is_u8 (store b i vs).
Proof.
  induction vs as [| v vs IH]; intros b i Hb Hvs; cbn [store].
  - exact Hb.
  - inversion Hvs; subst. apply IH; [apply wr_bytes | ]; assumption.
Qed.

Lemma rd_store_before (vs : list Z) :
  forall b i j, 0 <= j < i -> rd (store b i vs) j = rd b j.
Proof.
  induction vs as [| v vs IH]; intros b i j Hj; cbn [store].
  - reflexivity.
  - rewrite IH by lia. apply rd_wr_other; lia.
Qed.

(** A read inside a stored sequence returns the stored byte. *)
Lemma rd_store (vs : list Z) :
  forall b i k,
  0 <= i -> i + Z.of_nat (List.length vs) <= Z.of_nat (List.length b) ->
  (k < List.length vs)%nat ->
  rd (store b i vs) (i + Z.of_nat k) = nth k vs 0.
Proof.
  induction vs as [| v vs IH]; intros b i k Hi Hroom Hk; cbn [store].
  - cbn in Hk. lia.
  - cbn [List.length] in *. destruct k as [| k].
    + rewrite Z.add_0_r. rewrite rd_store_before by lia.
      cbn [nth]. apply rd_wr_same. lia.
    + cbn [nth].
      replace (i + Z.of_nat (S k)) with (i + 1 + Z.of_nat k) by lia.
      apply IH; [lia | rewrite wr_length; lia | lia].
Qed.

Lemma put_room (text : utf_text) (e limit : Z) (vs : list Z) :
  Z.of_nat (List.length vs) <= limit ->
  put text e limit vs =
    (e, Z.of_nat (List.length vs),
     set_buffer text (store (bytes_of text) (offset text) vs)).
Proof.
  intros H. unfold put.
  destruct (Z.ltb_spec limit (Z.of_nat (List.length vs))); [lia | reflexivity].
Qed.

Lemma stored_well_formed (text : utf_text) (vs : list Z) :
  well_formed text -> Forall is_u8 vs ->
  well_formed (set_buffer text (store (bytes_of text) (offset text) vs)).
Proof.
  intros (b & Hb & Hlen & Hmax & Hbytes & Hoff) Hvs.
  unfold bytes_of. rewrite Hb.
  exists (store b (offset text) vs). cbn.
  rewrite store_length. repeat split; try assumption; try lia.
  apply store_bytes; assumption.
Qed.

(** ** Bit operations as arithmetic *)

Lemma shiftr_div (x k : Z) : 0 <= k -> Z.shiftr x k = x / 2 ^ k.
Proof. intros Hk. apply Z.shiftr_div_pow2. exact Hk. Qed.

Lemma shiftl_mul (x k : Z) : 0 <= k -> Z.shiftl x k = x * 2 ^ k.
Proof. intros Hk. apply Z.shiftl_mul_pow2. exact Hk. Qed.

Lemma land_ones_mod (x k : Z) : 0 <= k -> Z.land x (Z.ones k) = x mod 2 ^ k.
Proof. intros Hk. apply Z.land_ones. exact Hk. Qed.

(** Bits that do not overlap add up. *)
Lemma lor_disjoint (a c : Z) : Z.land a c = 0 -> Z.lor a c = a + c.
Proof.
  intros H. rewrite <- (Z.lxor_lor a c H). symmetry.
  apply Z.add_nocarry_lxor. exact H.
Qed.

Lemma land_mul_pow2_low (v c k : Z) :
  0 <= k -> 0 <= c < 2 ^ k -> Z.land (v * 2 ^ k) c = 0.
Proof.
  intros Hk Hc. apply Z.bits_inj'. intros n Hn.
  rewrite Z.land_spec, Z.bits_0.
  destruct (Z.ltb_spec n k) as [Hlt | Hge].
  - rewrite Z.mul_pow2_bits_low by lia. reflexivity.
  - destruct (Z.eq_dec c 0) as [-> | Hne].
    + rewrite Z.bits_0. apply andb_false_r.
    + rewrite (Z.bits_above_log2 c n); [apply andb_false_r | lia | ].
      apply Z.log2_lt_pow2; [lia | ].
      apply Z.lt_le_trans with (2 ^ k); [lia | ].
      apply Z.pow_le_mono_r; lia.
Qed.

Lemma lor_mul_pow2 (v c k : Z) :
  0 <= k -> 0 <= c < 2 ^ k -> Z.lor (v * 2 ^ k) c = v * 2 ^ k + c.
Proof.
  intros Hk Hc. apply lor_disjoint. apply land_mul_pow2_low; assumption.
Qed.

(** A mask of the low 32 bits sees an integer through its wrap-around. *)
Lemma land_u32 (y m : Z) :
  0 <= m < 4294967296 -> Z.land (u32 y) m = Z.land y m.
Proof.
  intros Hm. unfold u32.
  change 4294967296 with (2 ^ 32).
  rewrite <- (Z.land_ones y 32) by lia.
  rewrite <- Z.land_assoc. f_equal.
  rewrite Z.land_comm, Z.land_ones by lia. apply Z.mod_small. exact Hm.
Qed.

Lemma u32_i32 (x : Z) : u32 (i32 x) = u32 x.
Proof. unfold u32, i32. lia. Qed.

Lemma land_i32 (x m : Z) :
  0 <= m < 4294967296 -> Z.land (i32 x) m = Z.land x m.
Proof.
  intros Hm. rewrite <- (land_u32 (i32 x) m Hm), u32_i32.
  apply land_u32. exact Hm.
Qed.

(** A mask that splits into two disjoint masks. *)
Lemma land_split (x m l : Z) :
  Z.land m l = 0 -> Z.land x (Z.lor m l) = Z.land x m + Z.land x l.
Proof.
  intros H. rewrite Z.land_lor_distr_r. apply lor_disjoint.
  rewrite (Z.land_comm x l), Z.land_assoc, <- (Z.land_assoc x m l), H.
  rewrite Z.land_0_r. apply Z.land_0_l.
Qed.

(** The bits of a 32-bit integer above the low [k]. *)
Lemma land_high (x k : Z) :
  0 <= k <= 32 -> 0 <= x < 4294967296 ->
  Z.land x (4294967296 - 2 ^ k) = x - x mod 2 ^ k.
Proof.
  intros Hk Hx.
  assert (Z.land (4294967296 - 2 ^ k) (Z.ones k) = 0) as Hdis.
  { apply Z.bits_inj'. intros n Hn.
    rewrite Z.land_spec, Z.bits_0.
    destruct (Z.ltb_spec n k) as [Hlt | Hge].
    - replace (4294967296 - 2 ^ k) with ((2 ^ (32 - k) - 1) * 2 ^ k).
      + rewrite Z.mul_pow2_bits_low by lia. reflexivity.
      + rewrite Z.mul_sub_distr_r, <- Z.pow_add_r by lia.
        replace (32 - k + k) with 32 by lia. change (2 ^ 32) with 4294967296.
        lia.
    - rewrite Z.ones_spec_high by lia. apply andb_false_r. }
  assert (Z.lor (4294967296 - 2 ^ k) (Z.ones k) = Z.ones 32) as Hall.
  { rewrite (lor_disjoint _ _ Hdis). rewrite !Z.ones_equiv.
    change (2 ^ 32) with 4294967296. lia. }
  pose proof (land_split x _ _ Hdis) as H.
  rewrite Hall, !Z.land_ones in H by lia.
  change (2 ^ 32) with 4294967296 in H.
  rewrite (Z.mod_small x 4294967296) in H by lia. lia.
Qed.

(** The tests of the decoders on a surrogate. *)
Lemma surrogate_test_spec (s : Z) :
  0 <= s < 4294967296 ->
  surrogate_test s = (0xd800 <=? s) && (s <=? 0xdfff).
Proof.
  intros Hs. unfold surrogate_test. rewrite (u32_small s Hs).
  change 0xfffff800 with (4294967296 - 2 ^ 11).
  rewrite (land_high s 11) by lia. change (2 ^ 11) with 2048.
  destruct (Z.eqb_spec (s - s mod 2048) 55296);
    destruct (Z.leb_spec 55296 s); destruct (Z.leb_spec s 57343);
    cbn [andb]; try reflexivity; lia.
Qed.

Lemma low_surrogate_test_spec (s : Z) :
  0 <= s < 4294967296 ->
  low_surrogate_test s = (0xdc00 <=? s) && (s <=? 0xdfff).
Proof.
  intros Hs. unfold low_surrogate_test. rewrite (u32_small s Hs).
  change 0xfffffc00 with (4294967296 - 2 ^ 10).
  rewrite (land_high s 10) by lia. change (2 ^ 10) with 1024.
  destruct (Z.eqb_spec (s - s mod 1024) 56320);
    destruct (Z.leb_spec 56320 s); destruct (Z.leb_spec s 57343);
    cbn [andb]; try reflexivity; lia.
Qed.

Lemma low_bit_test_spec (s : Z) :
  0xd800 <= s <= 0xdfff -> low_bit_test s = (0xdc00 <=? s).
Proof.
  intros Hs. unfold low_bit_test. rewrite (u32_small s) by lia.
  pose proof (range_cases 0xd800 0xe000
    (fun s => Bool.eqb (negb (Z.land s 1024 =? 0)) (0xdc00 <=? s))
    ltac:(vm_compute; reflexivity) s ltac:(lia)) as H.
  cbn beta in H. apply eqb_prop in H. exact H.
Qed.

(** [join_pair] of two 16-bit code units. *)
Lemma join_pair_spec (hi lo : Z) :
  0 <= hi < 65536 -> 0 <= lo < 65536 ->
  join_pair hi lo = (hi mod 1024) * 1024 + lo mod 1024 + 65536.
Proof.
  intros Hhi Hlo. unfold join_pair.
  rewrite (u32_small hi), (u32_small lo) by lia.
  change 1023 with (Z.ones 10). rewrite !land_ones_mod by lia.
  rewrite shiftl_mul by lia. change (2 ^ 10) with 1024.
  unfold u32, i32. lia.
Qed.

(** ** The surrogate pair of the encoders *)

(** [surrogate_word] holds the high surrogate in its low half and the low
    surrogate in its high half. *)
Lemma surrogate_word_spec (s : Z) :
  0x10000 <= s <= 0x10ffff ->
  surrogate_word s =
    (0xdc00 + (s - 0x10000) mod 1024) * 65536
    + (0xd800 + (s - 0x10000) / 1024) - 4294967296.
Proof.
  intros Hs. unfold surrogate_word.
  rewrite (u32_small s), (u32_small (s - 65536)), (i32_small (s - 65536))
    by lia.
  set (s' := s - 65536) in *.
  assert (0 <= s' < 1048576) as Hs' by (subst s'; lia).
  rewrite land_u32 by lia.
  set (X := Z.land (Z.lor (Z.shiftr s' 10) (i32 (Z.shiftl s' 16))) 67044351).
  assert (Z.land X 3691042816 = 0) as Hdis.
  { subst X. rewrite <- Z.land_assoc.
    change (Z.land 67044351 3691042816) with 0. apply Z.land_0_r. }
  rewrite (lor_disjoint X _ Hdis).
  assert (X = (s' mod 1024) * 65536 + s' / 1024) as HX.
  { subst X. rewrite Z.land_lor_distr_l, land_i32 by lia.
    assert (Z.land (Z.shiftr s' 10) 67044351 = s' / 1024) as ->.
    { rewrite shiftr_div by lia. change (2 ^ 10) with 1024.
      pose proof (range_cases 0 1024 (fun x => Z.land x 67044351 =? x)
                    ltac:(vm_compute; reflexivity) (s' / 1024)
                    ltac:(lia)) as H.
      cbn beta in H. apply Z.eqb_eq in H. exact H. }
    assert (Z.land (Z.shiftl s' 16) 67044351 = (s' mod 1024) * 65536) as ->.
    { change 67044351 with (Z.lor (Z.shiftl 1023 16) 1023).
      rewrite land_split by reflexivity.
      rewrite <- Z.shiftl_land.
      change 1023 with (Z.ones 10). rewrite !land_ones_mod by lia.
      rewrite !shiftl_mul by lia.
      change (2 ^ 10) with 1024. change (2 ^ 16) with 65536. lia. }
    rewrite Z.lor_comm.
    change 65536 with (2 ^ 16). apply lor_mul_pow2; [lia | ].
    change (2 ^ 16) with 65536. lia. }
  rewrite HX. unfold i32. lia.
Qed.

(** ** The bytes that the encoders store *)

Lemma masked_byte_cont (x : Z) : masked_byte x 0x3f 0x80 = 128 + x mod 64.
Proof.
  unfold masked_byte.
  assert (is_u8 (u8 x)) as Hx by (unfold is_u8, u8; lia).
  pose proof (byte_cases
    (fun y => u8 (Z.lor (Z.land y 63) 128) =? 128 + y mod 64)
    ltac:(vm_compute; reflexivity) (u8 x) Hx) as H.
  cbn beta in H. apply Z.eqb_eq in H. rewrite H. unfold u8. lia.
Qed.

Lemma masked_byte_lead3 (x : Z) : masked_byte x 0x0f 0xe0 = 224 + x mod 16.
Proof.
  unfold masked_byte.
  assert (is_u8 (u8 x)) as Hx by (unfold is_u8, u8; lia).
  pose proof (byte_cases
    (fun y => u8 (Z.lor (Z.land y 15) 224) =? 224 + y mod 16)
    ltac:(vm_compute; reflexivity) (u8 x) Hx) as H.
  cbn beta in H. apply Z.eqb_eq in H. rewrite H. unfold u8. lia.
Qed.

Lemma lead_byte_small (x o k : Z) :
  all_from (Z.to_nat k) 0 (fun y => lead_byte y o =? o + y) = true ->
  0 <= x < k -> lead_byte x o = o + x.
Proof.
  intros Hall Hx.
  pose proof (range_cases 0 k (fun y => lead_byte y o =? o + y)) as H.
  rewrite Z.sub_0_r in H. specialize (H Hall x Hx).
  apply Z.eqb_eq in H. exact H.
Qed.

Lemma lead_byte_2 (x : Z) : 0 <= x < 32 -> lead_byte x 0xc0 = 192 + x.
Proof. apply lead_byte_small. vm_compute. reflexivity. Qed.

Lemma lead_byte_3 (x : Z) : 0 <= x < 16 -> lead_byte x 0xe0 = 224 + x.
Proof. apply lead_byte_small. vm_compute. reflexivity. Qed.

Lemma lead_byte_4 (x : Z) : 0 <= x < 8 -> lead_byte x 0xf0 = 240 + x.
Proof. apply lead_byte_small. vm_compute. reflexivity. Qed.

(** ** [fetchUTF8] on well-formed sequences *)

Lemma cont_facts (x : Z) :
  128 <= x <= 191 -> Z.land x 192 = 128 /\ Z.land x 63 = x - 128.
Proof.
  intros Hx.
  pose proof (range_cases 128 192
    (fun x => (Z.land x 192 =? 128) && (Z.land x 63 =? x - 128))
    ltac:(vm_compute; reflexivity) x ltac:(lia)) as H.
  cbn beta in H. unbool H. exact H.
Qed.

Lemma lead_facts (x : Z) :
  192 <= x <= 247 ->
  193 < u8 (x + 2) /\
  (x <= 223 -> Z.land (Z.shiftr x 5) 3 = 2 /\ Z.land x 31 = x - 192) /\
  (224 <= x <= 239 -> Z.land (Z.shiftr x 5) 3 = 3 /\ Z.land x 15 = x - 224) /\
  (240 <= x -> Z.land x 7 = x - 240).
Proof.
  intros Hx.
  pose proof (range_cases 192 248
    (fun x =>
       (193 <? u8 (x + 2)) &&
       implb (x <=? 223)
             ((Z.land (Z.shiftr x 5) 3 =? 2) && (Z.land x 31 =? x - 192)) &&
       implb ((224 <=? x) && (x <=? 239))
             ((Z.land (Z.shiftr x 5) 3 =? 3) && (Z.land x 15 =? x - 224)) &&
       implb (240 <=? x) (Z.land x 7 =? x - 240))
    ltac:(vm_compute; reflexivity) x ltac:(lia)) as H.
  cbn beta in H. unbool H. tauto.
Qed.

Lemma fetch_cont_step (b : list Z) (base : Z) (n : nat)
    (index value count errors : Z) :
  index < count -> 128 <= rd b (base + index) <= 191 ->
  0 <= value < 2097152 ->
  fetch_cont b base (S n) index value count errors =
  fetch_cont b base n (index + 1)
    (value * 64 + (rd b (base + index) - 128)) count errors.
Proof.
  intros Hi Hc Hv. cbn [fetch_cont].
  destruct (Z.ltb_spec index count); [ | lia].
  destruct (cont_facts _ Hc) as [-> ->]. cbn [Z.eqb Pos.eqb negb].
  rewrite shiftl_mul by lia. change (2 ^ 6) with 64.
  rewrite (i32_small (value * 64)) by lia.
  change 64 with (2 ^ 6) at 1. rewrite lor_mul_pow2 by lia.
  change (2 ^ 6) with 64. rewrite i32_small by lia. reflexivity.
Qed.

Lemma fetch_cont_done (b : list Z) (base : Z) (n : nat)
    (index value count errors : Z) :
  count <= index ->
  fetch_cont b base n index value count errors = (value, count, errors).
Proof.
  intros Hi. destruct n; cbn [fetch_cont]; [reflexivity | ].
  destruct (Z.ltb_spec index count); [lia | reflexivity].
Qed.

Lemma fetchUTF8_1 (b : list Z) (base size : Z) (coalesce : bool) :
  0 <= rd b base <= 127 -> 1 <= size ->
  fetchUTF8 b base size coalesce = (0, rd b base, 1).
Proof.
  intros Hl Hsize. unfold fetchUTF8, u8. zdecide. reflexivity.
Qed.

Lemma fetchUTF8_2 (b : list Z) (base size : Z) (coalesce : bool) :
  192 <= rd b base <= 223 -> 128 <= rd b (base + 1) <= 191 -> 2 <= size ->
  let v := (rd b base - 192) * 64 + (rd b (base + 1) - 128) in
  fetchUTF8 b base size coalesce = (overlong_bits v 2 128, v, 2).
Proof.
  intros Hl H1 Hsize v.
  destruct (lead_facts (rd b base) ltac:(lia)) as (Hmulti & Hf & _ & _).
  destruct (Hf ltac:(lia)) as [Hcount Hmask].
  unfold fetchUTF8. zdecide. rewrite Hcount. zdecide.
  change (i32 (Z.shiftl 1 (7 - 2)) - 1) with 31. rewrite Hmask.
  change (Z.to_nat 2) with 2%nat.
  rewrite fetch_cont_step by lia.
  rewrite fetch_cont_done by lia.
  change (cp_errors.no_error 0) with true. cbv iota.
  change (bits_of_n (i32 (Z.lor 2 (u32 (Z.shiftl 2 2))) - 11)) with 7.
  rewrite shiftr_div by lia. change (2 ^ 7) with 128.
  fold v. unfold overlong_bits.
  assert (0 <= v) by (subst v; lia).
  rewrite Z.lor_0_l.
  match goal with
  | |- context [v <? ?low] => destruct (Z.ltb_spec v low)
  end; zdecide; reflexivity.
Qed.

Lemma fetchUTF8_3 (b : list Z) (base size : Z) (coalesce : bool) :
  224 <= rd b base <= 239 -> 128 <= rd b (base + 1) <= 191 ->
  128 <= rd b (base + 2) <= 191 -> 3 <= size ->
  let v := ((rd b base - 224) * 64 + (rd b (base + 1) - 128)) * 64
           + (rd b (base + 2) - 128) in
  fetchUTF8 b base size coalesce = (overlong_bits v 3 2048, v, 3).
Proof.
  intros Hl H1 H2 Hsize v.
  destruct (lead_facts (rd b base) ltac:(lia)) as (Hmulti & _ & Hf & _).
  destruct (Hf ltac:(lia)) as [Hcount Hmask].
  unfold fetchUTF8. zdecide. rewrite Hcount. zdecide.
  change (i32 (Z.shiftl 1 (7 - 3)) - 1) with 15. rewrite Hmask.
  change (Z.to_nat 3) with 3%nat.
  rewrite fetch_cont_step by lia. change (1 + 1) with 2.
  rewrite fetch_cont_step by lia. change (2 + 1) with 3.
  rewrite fetch_cont_done by lia.
  change (cp_errors.no_error 0) with true. cbv iota.
  change (bits_of_n (i32 (Z.lor 3 (u32 (Z.shiftl 3 2))) - 11)) with 11.
  rewrite shiftr_div by lia. change (2 ^ 11) with 2048.
  fold v. unfold overlong_bits.
  assert (0 <= v) by (subst v; lia).
  rewrite Z.lor_0_l.
  match goal with
  | |- context [v <? ?low] => destruct (Z.ltb_spec v low)
  end; zdecide; reflexivity.
Qed.

Lemma fetchUTF8_4 (b : list Z) (base size : Z) (coalesce : bool) :
  240 <= rd b base <= 247 -> 128 <= rd b (base + 1) <= 191 ->
  128 <= rd b (base + 2) <= 191 -> 128 <= rd b (base + 3) <= 191 ->
  4 <= size ->
  let v := (((rd b base - 240) * 64 + (rd b (base + 1) - 128)) * 64
            + (rd b (base + 2) - 128)) * 64 + (rd b (base + 3) - 128) in
  fetchUTF8 b base size coalesce = (overlong_bits v 4 65536, v, 4).
Proof.
  intros Hl H1 H2 H3 Hsize v.
  destruct (lead_facts (rd b base) ltac:(lia)) as (Hmulti & _ & _ & Hf).
  pose proof (Hf ltac:(lia)) as Hmask.
  unfold fetchUTF8. zdecide.
  change (i32 (Z.shiftl 1 (7 - 4)) - 1) with 7. rewrite Hmask.
  change (Z.to_nat 4) with 4%nat.
  rewrite fetch_cont_step by lia. change (1 + 1) with 2.
  rewrite fetch_cont_step by lia. change (2 + 1) with 3.
  rewrite fetch_cont_step by lia. change (3 + 1) with 4.
  rewrite fetch_cont_done by lia.
  change (cp_errors.no_error 0) with true. cbv iota.
  change (bits_of_n (i32 (Z.lor 4 (u32 (Z.shiftl 4 2))) - 11)) with 16.
  rewrite shiftr_div by lia. change (2 ^ 16) with 65536.
  fold v. unfold overlong_bits.
  assert (0 <= v) by (subst v; lia).
  rewrite Z.lor_0_l.
  match goal with
  | |- context [v <? ?low] => destruct (Z.ltb_spec v low)
  end; zdecide; reflexivity.
Qed.
